(** * laceworksdk.http_session: the HttpSession class

    A shallow embedding of [laceworksdk/http_session.py].  Every method of
    the class is a computation in a small state-and-exception monad whose
    state holds the Python heap (the class object and the instances), the
    requests handed to the [requests] session and the records handed to the
    logger.  The network and the clock are an environment the computation
    reads. *)

From Stdlib Require Import ZArith Lia Ascii String.
From stdpp Require Import base option list gmap strings.

Set Warnings "-register-all".

Local Open Scope string_scope.
Local Open Scope list_scope.
Local Open Scope Z_scope.

(** ** Python values *)

(** The values that flow through the class: what [response.json()] returns,
    what callers pass as [data] and [param], and what ends up in a header
    dictionary.  [VNone] is Python's [None] (JSON [null]).  JSON numbers with
    a fraction are not represented; no method inspects a number. *)
Inductive pyval : Type :=
| VNone
| VBool (b : bool)
| VInt (n : Z)
| VStr (s : string)
| VList (elems : list pyval)
| VDict (items : list (string * pyval)).

(** [v is None] *)
Definition is_None (v : pyval) : bool :=
  match v with VNone => true | _ => false end.

(** The items of a dict, looked up by key. *)
Fixpoint dict_get (k : string) (items : list (string * pyval)) : option pyval :=
  match items with
  | [] => None
  | (k', v) :: rest => if String.eqb k k' then Some v else dict_get k rest
  end.

(** An aware [datetime], as the instant it denotes: microseconds since the
    Unix epoch.  Comparison of two aware datetimes compares their instants,
    whatever their offsets. *)
Definition datetime : Type := Z.

(** ** Strings *)

Definition nl : string := String (ascii_of_nat 10) EmptyString.

Definition lower_ascii (c : ascii) : ascii :=
  let n := nat_of_ascii c in
  if ((65 <=? n) && (n <=? 90))%nat then ascii_of_nat (n + 32) else c.

(** [s.lower()], on ASCII letters. *)
Fixpoint lower (s : string) : string :=
  match s with
  | EmptyString => EmptyString
  | String c rest => String (lower_ascii c) (lower rest)
  end.

(** [needle in hay] *)
Fixpoint contains (needle hay : string) : bool :=
  String.prefix needle hay
  || match hay with
     | EmptyString => false
     | String _ rest => contains needle rest
     end.

(** ** A reader for the expiry timestamp

    [datetime.strptime] belongs to the Python library; the class is modelled
    over any such reader (see the section below).  [strptime_iso] is the
    reader used in the worked examples: it accepts the zero-padded rendering
    [YYYY-MM-DDTHH:MM:SS.f+HH:MM] of the format
    ["%Y-%m-%dT%H:%M:%S.%f%z"] (one to six fraction digits; the offset
    written [+HHMM], [+HH:MM] or [Z]) and returns the instant.  Python's
    reader accepts more (fields of one digit, a lower-case [t], seconds in
    the offset); no property below depends on the difference. *)

Definition digit (c : ascii) : option Z :=
  let n := nat_of_ascii c in
  if ((48 <=? n) && (n <=? 57))%nat then Some (Z.of_nat n - 48) else None.

(** Exactly [n] digits. *)
Fixpoint read_digits (n : nat) (acc : Z) (s : string) : option (Z * string) :=
  match n with
  | O => Some (acc, s)
  | S n' =>
      match s with
      | String c rest =>
          match digit c with
          | Some d => read_digits n' (10 * acc + d) rest
          | None => None
          end
      | EmptyString => None
      end
  end.

(** Up to [n] further digits of a fraction whose next digit weighs [w]
    microseconds. *)
Fixpoint read_fraction (n : nat) (w acc : Z) (s : string) : Z * string :=
  match n with
  | O => (acc, s)
  | S n' =>
      match s with
      | String c rest =>
          match digit c with
          | Some d => read_fraction n' (w / 10) (acc + d * w) rest
          | None => (acc, s)
          end
      | EmptyString => (acc, s)
      end
  end.

Definition expect (c : ascii) (s : string) : option string :=
  match s with
  | String c' rest => if Ascii.eqb c c' then Some rest else None
  | EmptyString => None
  end.

Definition skip (c : ascii) (s : string) : string :=
  match expect c s with Some rest => rest | None => s end.

Definition is_leap (y : Z) : bool :=
  ((y mod 4 =? 0) && negb (y mod 100 =? 0)) || (y mod 400 =? 0).

Definition days_in_month (y m : Z) : Z :=
  if m =? 2 then (if is_leap y then 29 else 28)
  else if (m =? 4) || (m =? 6) || (m =? 9) || (m =? 11) then 30
  else 31.

(** Days from 1970-01-01 to the given civil date (proleptic Gregorian). *)
Definition days_from_civil (y m d : Z) : Z :=
  let y' := if m <=? 2 then y - 1 else y in
  let era := y' / 400 in
  let yoe := y' - era * 400 in
  let mp := (m + 9) mod 12 in
  let doy := (153 * mp + 2) / 5 + d - 1 in
  let doe := yoe * 365 + yoe / 4 - yoe / 100 + doy in
  era * 146097 + doe - 719468.

(** The offset east of UTC, in seconds; nothing may follow it. *)
Definition read_offset (s : string) : option Z :=
  match s with
  | String c rest =>
      if Ascii.eqb c "Z" then
        match rest with EmptyString => Some 0 | _ => None end
      else
        let sign :=
          if Ascii.eqb c "+" then Some 1
          else if Ascii.eqb c "-" then Some (-1)
          else None in
        match sign with
        | Some sg =>
            match read_digits 2 0 rest with
            | Some (hh, rest1) =>
                match read_digits 2 0 (skip ":" rest1) with
                | Some (mm, EmptyString) =>
                    if (hh <? 24) && (mm <? 60)
                    then Some (sg * (hh * 3600 + mm * 60))
                    else None
                | _ => None
                end
            | None => None
            end
        | None => None
        end
  | EmptyString => None
  end.

Definition expiry_format : string := "%Y-%m-%dT%H:%M:%S.%f%z".

Definition strptime_iso (s fmt : string) : option datetime :=
  if negb (String.eqb fmt expiry_format) then None else
  '(y, s) ← read_digits 4 0 s;
  s ← expect "-" s;
  '(m, s) ← read_digits 2 0 s;
  s ← expect "-" s;
  '(d, s) ← read_digits 2 0 s;
  s ← expect "T" s;
  '(hh, s) ← read_digits 2 0 s;
  s ← expect ":" s;
  '(mi, s) ← read_digits 2 0 s;
  s ← expect ":" s;
  '(ss, s) ← read_digits 2 0 s;
  s ← expect "." s;
  '(f1, s) ← read_digits 1 0 s;
  let '(us, s) := read_fraction 5 10000 (f1 * 100000) s in
  off ← read_offset s;
  if (1 <=? y) && (1 <=? m) && (m <=? 12) && (1 <=? d)
     && (d <=? days_in_month y m) && (hh <? 24) && (mi <? 60) && (ss <? 60)
  then Some ((((days_from_civil y m d * 24 + hh) * 60 + mi) * 60 + ss - off)
             * 1000000 + us)
  else None.

(** ** What the class exchanges with its collaborators *)

Inductive Method : Type := GET | POST | PUT | PATCH | DELETE.

(** One call of [requests.Session.get/post/put/patch/delete]: the positional
    URI and the keyword arguments [params], [json] and [headers] ([VNone]
    where the keyword is not passed). *)
Record Request : Type := mkRequest {
  req_method : Method;
  req_uri : string;
  req_params : pyval;
  req_json : pyval;
  req_headers : gmap string pyval
}.

(** A [requests.Response], as the attributes the class reads: [status_code],
    [headers] (case-insensitive, kept here under lower-case names), [text],
    and the result of [json()], [None] when it raises [ValueError]. *)
Record Response : Type := mkResponse {
  status_code : Z;
  headers : gmap string string;
  text : string;
  json : option pyval
}.

(** [response.headers.get(name, dflt)] *)
Definition headers_get (response : Response) (name dflt : string) : string :=
  default dflt (headers response !! lower name).

(** The exceptions the methods can meet. Every one is a subclass of
    [Exception].  [ApiError] (laceworksdk.exceptions) is built from the
    response it reports; [RequestException] stands for whatever the
    [requests] session raises when no response is received;
    [InvalidObject] is raised by the model alone, on a reference to an object
    the heap does not hold. *)
Inductive Exn : Type :=
| ApiError (response : Response)
| UnboundLocalError (name : string)
| TypeError
| KeyError (key : string)
| ValueError
| RequestException (what : string)
| InvalidObject.

Inductive Outcome (A : Type) : Type :=
| Return (a : A)
| Raise (e : Exn).
Arguments Return {A} a.
Arguments Raise {A} e.

(** What a call of the [requests] session comes to. *)
Inductive HttpResult : Type :=
| Responded (response : Response)
| Failed (what : string).

(** What is handed to the logger: a ready string, a prefix followed by the
    rendering of a value (an f-string), or [json.dumps(v, indent=2)]. *)
Inductive Rendered : Type :=
| Str (s : string)
| Fmt (s : string) (v : pyval)
| Dumps (v : pyval).

Inductive LogRecord : Type :=
| Info (msg : Rendered)
| Debug (msg : Rendered)
| Warning (msg : Rendered).

(** ** The heap *)

(** The attributes the class statement binds on the class object. *)
Record ClassObj : Type := mkClass {
  cls_access_token : pyval;
  cls_access_token_expiry : option datetime
}.

(** The body of [class HttpSession]: both attributes are [None]. *)
Definition HttpSession : ClassObj :=
  {| cls_access_token := VNone; cls_access_token_expiry := None |}.

(** The attributes of one instance.  The four set by [__init__] are always
    bound; the two token attributes are bound on the instance by the first
    assignment through [self] ([None] here: not in the instance's own
    dictionary, so a read falls through to the class). *)
Record Instance : Type := mkInstance {
  _api_key : string;
  _api_secret : string;
  _base_url : string;
  _subaccount : option string;
  own_access_token : option pyval;
  own_access_token_expiry : option datetime
}.

Record Heap : Type := mkHeap {
  class_obj : ClassObj;
  instances : list Instance
}.

Record World : Type := mkWorld {
  heap : Heap;
  sent : list Request;
  logged : list LogRecord
}.

(** The heap after the class statement has run, nothing sent, nothing
    logged. *)
Definition initial_world : World :=
  {| heap := {| class_obj := HttpSession; instances := [] |};
     sent := []; logged := [] |}.

(** The surroundings of one call: the reading of [datetime.now(timezone.utc)]
    and the answer of the network to each request. *)
Record Env : Type := mkEnv {
  now : datetime;
  send : Request -> HttpResult
}.

(** ** The monad *)

Definition M (A : Type) : Type := Env -> World -> Outcome A * World.

Definition ret {A} (a : A) : M A := fun _ w => (Return a, w).

Definition raise {A} (e : Exn) : M A := fun _ w => (Raise e, w).

Definition bind {A B} (m : M A) (k : A -> M B) : M B :=
  fun env w =>
    match m env w with
    | (Return a, w') => k a env w'
    | (Raise e, w') => (Raise e, w')
    end.

(** [try: m  except Exception: h] *)
Definition try_except {A} (m : M A) (h : Exn -> M A) : M A :=
  fun env w =>
    match m env w with
    | (Return a, w') => (Return a, w')
    | (Raise e, w') => h e env w'
    end.

Notation "x <- c1 ;; c2" := (bind c1 (fun x => c2))
  (at level 100, c1 at next level, right associativity).
Notation "c1 ;; c2" := (bind c1 (fun _ => c2))
  (at level 100, right associativity).

(** *** Primitive operations *)

Definition with_heap (w : World) (h : Heap) : World :=
  {| heap := h; sent := sent w; logged := logged w |}.

Definition with_instances (w : World) (l : list Instance) : World :=
  with_heap w {| class_obj := class_obj (heap w); instances := l |}.

Definition with_sent (w : World) (rq : Request) : World :=
  {| heap := heap w; sent := sent w ++ [rq]; logged := logged w |}.

Definition with_logged (w : World) (r : LogRecord) : World :=
  {| heap := heap w; sent := sent w; logged := logged w ++ [r] |}.

Definition store_access_token (v : pyval) (o : Instance) : Instance :=
  {| _api_key := _api_key o; _api_secret := _api_secret o;
     _base_url := _base_url o; _subaccount := _subaccount o;
     own_access_token := Some v;
     own_access_token_expiry := own_access_token_expiry o |}.

Definition store_access_token_expiry (d : datetime) (o : Instance) : Instance :=
  {| _api_key := _api_key o; _api_secret := _api_secret o;
     _base_url := _base_url o; _subaccount := _subaccount o;
     own_access_token := own_access_token o;
     own_access_token_expiry := Some d |}.

Definition get_world : M World := fun _ w => (Return w, w).

Definition lookup_instance (self : nat) : M Instance :=
  fun _ w =>
    match instances (heap w) !! self with
    | Some o => (Return o, w)
    | None => (Raise InvalidObject, w)
    end.

Definition update_instance (self : nat) (f : Instance -> Instance) : M unit :=
  fun _ w =>
    match instances (heap w) !! self with
    | Some o =>
        (Return tt, with_instances w (<[self := f o]> (instances (heap w))))
    | None => (Raise InvalidObject, w)
    end.

(** A new object; its reference is its position in the heap. *)
Definition alloc (o : Instance) : M nat :=
  fun _ w =>
    (Return (length (instances (heap w))),
     with_instances w (instances (heap w) ++ [o])).

(** [self._access_token], read: the instance's own binding, else the
    class's. *)
Definition read_access_token (h : Heap) (o : Instance) : pyval :=
  match own_access_token o with
  | Some v => v
  | None => cls_access_token (class_obj h)
  end.

Definition read_access_token_expiry (h : Heap) (o : Instance) : option datetime :=
  match own_access_token_expiry o with
  | Some d => Some d
  | None => cls_access_token_expiry (class_obj h)
  end.

Definition getattr_access_token (self : nat) : M pyval :=
  o <- lookup_instance self ;;
  w <- get_world ;;
  ret (read_access_token (heap w) o).

Definition getattr_access_token_expiry (self : nat) : M (option datetime) :=
  o <- lookup_instance self ;;
  w <- get_world ;;
  ret (read_access_token_expiry (heap w) o).

(** [self._access_token = v]: binds the attribute on the instance. *)
Definition setattr_access_token (self : nat) (v : pyval) : M unit :=
  update_instance self (store_access_token v).

(** [self._access_token_expiry = d] *)
Definition setattr_access_token_expiry (self : nat) (d : datetime) : M unit :=
  update_instance self (store_access_token_expiry d).

(** [datetime.now(timezone.utc)] *)
Definition datetime_now : M datetime := fun env w => (Return (now env), w).

(** [a < b] with [b] a datetime: [None < datetime] is a [TypeError]. *)
Definition datetime_lt (a : option datetime) (b : datetime) : M bool :=
  match a with
  | Some d => ret (d <? b)
  | None => raise TypeError
  end.

Definition logger (r : LogRecord) : M unit :=
  fun _ w => (Return tt, with_logged w r).

(** One call of the [requests] session: the request is recorded, then
    answered by the environment. *)
Definition session_request (rq : Request) : M Response :=
  fun env w =>
    match send env rq with
    | Responded response => (Return response, with_sent w rq)
    | Failed what => (Raise (RequestException what), with_sent w rq)
    end.

(** [response.json()] *)
Definition response_json (response : Response) : M pyval :=
  match json response with
  | Some v => ret v
  | None => raise ValueError
  end.

(** [v[key]] with [key] a string. *)
Definition subscript (v : pyval) (key : string) : M pyval :=
  match v with
  | VDict items =>
      match dict_get key items with
      | Some x => ret x
      | None => raise (KeyError key)
      end
  | _ => raise TypeError
  end.

(** ** The class *)

(** What the module imports and this file does not define:
    [laceworksdk.version], the three constants of [laceworksdk.config], and
    [datetime.strptime(s, fmt)] ([None] when it raises [ValueError]). *)
Class Imports : Type := {
  version : string;
  DEFAULT_BASE_DOMAIN : string;
  DEFAULT_ACCESS_TOKEN_EXPIRATION : Z;
  DEFAULT_SUCCESS_RESPONSE_CODES : list Z;
  strptime : string -> string -> option datetime
}.

Section HttpSessionClass.

Context `{Imports}.

Definition datetime_strptime (v : pyval) (fmt : string) : M datetime :=
  match v with
  | VStr s =>
      match strptime s fmt with
      | Some d => ret d
      | None => raise ValueError
      end
  | _ => raise TypeError
  end.

Definition user_agent : string := "laceworksdk-python-client/" +:+ version.

(** The truth value of [self._subaccount]: [None] and the empty string are
    false. *)
Definition truthy (subaccount : option string) : bool :=
  match subaccount with
  | Some (String _ _) => true
  | _ => false
  end.

Definition _check_response_code (self : nat) (response : Response)
    (expected_response_codes : list Z) : M unit :=
  if bool_decide (status_code response ∈ expected_response_codes)
  then ret tt
  else raise (ApiError response).

Definition _print_debug_logging (self : nat) (response : Response) : M unit :=
  if contains "application/json"
       (lower (headers_get response "Content-Type" ""))
  then
    try_except
      (v <- response_json response ;;
       logger (Debug (Dumps v)))
      (fun e =>
         match e with
         | ValueError => logger (Warning (Str "Error parsing JSON response body"))
         | _ => raise e
         end)
  else logger (Debug (Str (text response))).

(** The [try] block binds the local [response] with its first statement.  The
    handler reads that local: when the first statement raised, it is still
    unbound. *)
Definition _get_access_token (self : nat) : M Response :=
  logger (Info (Str "Creating Access Token in Lacework...")) ;;
  o <- lookup_instance self ;;
  let uri := _base_url o +:+ "/api/v2/access/tokens" in
  let headers : gmap string pyval :=
    {[ "X-LW-UAKS" := VStr (_api_secret o);
       "Content-Type" := VStr "application/json";
       "User-Agent" := VStr user_agent ]} in
  let data :=
    VDict [("keyId", VStr (_api_key o));
           ("expiryTime", VInt DEFAULT_ACCESS_TOKEN_EXPIRATION)] in
  response <-
    try_except
      (session_request
         {| req_method := POST; req_uri := uri; req_params := VNone;
            req_json := data; req_headers := headers |})
      (fun _ => raise (UnboundLocalError "response")) ;;
  try_except
    (_check_response_code self response DEFAULT_SUCCESS_RESPONSE_CODES ;;
     _print_debug_logging self response)
    (fun _ => raise (ApiError response)) ;;
  ret response.

(** The condition of the [if] in [_check_access_token]; [or] evaluates its
    right operand only when the left one is false. *)
Definition token_missing_or_expired (self : nat) : M bool :=
  token <- getattr_access_token self ;;
  if is_None token then ret true
  else
    expiry <- getattr_access_token_expiry self ;;
    t <- datetime_now ;;
    datetime_lt expiry t.

Definition _check_access_token (self : nat) : M unit :=
  stale <- token_missing_or_expired self ;;
  if stale then
    response <- _get_access_token self ;;
    body <- response_json response ;;
    expires_at <- subscript body "expiresAt" ;;
    expiry <- datetime_strptime expires_at expiry_format ;;
    setattr_access_token_expiry self expiry ;;
    body <- response_json response ;;
    token <- subscript body "token" ;;
    setattr_access_token self token
  else ret tt.

Definition __init__ (account : string) (subaccount : option string)
    (api_key api_secret : string) : M nat :=
  self <- alloc
    {| _api_key := api_key;
       _api_secret := api_secret;
       _base_url := "https://" +:+ account +:+ "." +:+ DEFAULT_BASE_DOMAIN;
       _subaccount := subaccount;
       own_access_token := None;
       own_access_token_expiry := None |} ;;
  _check_access_token self ;;
  ret self.

Definition _get_request_headers (self : nat) (org_access : bool)
    : M (gmap string pyval) :=
  token <- getattr_access_token self ;;
  o <- lookup_instance self ;;
  let headers : gmap string pyval :=
    {[ "Authorization" := token;
       "Org-Access" := VStr (if org_access then "true" else "false");
       "User-Agent" := VStr user_agent ]} in
  ret (if truthy (_subaccount o)
       then <["Account-Name" := VStr (default "" (_subaccount o))]> headers
       else headers).

Definition get (self : nat) (uri : string) (org : bool) : M Response :=
  _check_access_token self ;;
  o <- lookup_instance self ;;
  let uri := _base_url o +:+ uri in
  logger (Info (Str ("GET request to URI: " +:+ uri))) ;;
  headers <- _get_request_headers self org ;;
  response <- session_request
    {| req_method := GET; req_uri := uri; req_params := VNone;
       req_json := VNone; req_headers := headers |} ;;
  _check_response_code self response DEFAULT_SUCCESS_RESPONSE_CODES ;;
  _print_debug_logging self response ;;
  ret response.

Definition patch (self : nat) (uri : string) (org : bool) (data param : pyval)
    : M Response :=
  _check_access_token self ;;
  o <- lookup_instance self ;;
  let uri := _base_url o +:+ uri in
  logger (Info (Str ("PATCH request to URI: " +:+ uri))) ;;
  logger (Info (Fmt ("PATCH request data:" +:+ nl) data)) ;;
  headers <- _get_request_headers self org ;;
  response <- session_request
    {| req_method := PATCH; req_uri := uri; req_params := param;
       req_json := data; req_headers := headers |} ;;
  _check_response_code self response DEFAULT_SUCCESS_RESPONSE_CODES ;;
  _print_debug_logging self response ;;
  ret response.

Definition post (self : nat) (uri : string) (org : bool) (data param : pyval)
    : M Response :=
  _check_access_token self ;;
  o <- lookup_instance self ;;
  let uri := _base_url o +:+ uri in
  logger (Info (Str ("POST request to URI: " +:+ uri))) ;;
  logger (Info (Fmt ("POST request data:" +:+ nl) data)) ;;
  headers <- _get_request_headers self org ;;
  response <- session_request
    {| req_method := POST; req_uri := uri; req_params := param;
       req_json := data; req_headers := headers |} ;;
  _check_response_code self response DEFAULT_SUCCESS_RESPONSE_CODES ;;
  _print_debug_logging self response ;;
  ret response.

Definition put (self : nat) (uri : string) (org : bool) (data param : pyval)
    : M Response :=
  _check_access_token self ;;
  o <- lookup_instance self ;;
  let uri := _base_url o +:+ uri in
  logger (Info (Str ("PUT request to URI: " +:+ uri))) ;;
  logger (Info (Fmt ("PUT request data:" +:+ nl) data)) ;;
  headers <- _get_request_headers self org ;;
  response <- session_request
    {| req_method := PUT; req_uri := uri; req_params := param;
       req_json := data; req_headers := headers |} ;;
  _check_response_code self response DEFAULT_SUCCESS_RESPONSE_CODES ;;
  _print_debug_logging self response ;;
  ret response.

Definition delete (self : nat) (uri : string) (org : bool) : M Response :=
  _check_access_token self ;;
  o <- lookup_instance self ;;
  let uri := _base_url o +:+ uri in
  logger (Info (Str ("DELETE request to URI: " +:+ uri))) ;;
  headers <- _get_request_headers self org ;;
  response <- session_request
    {| req_method := DELETE; req_uri := uri; req_params := VNone;
       req_json := VNone; req_headers := headers |} ;;
  _check_response_code self response DEFAULT_SUCCESS_RESPONSE_CODES ;;
  _print_debug_logging self response ;;
  ret response.

(** *** Calls from outside *)

(** One call of a public verb method, with its arguments ([org] defaults to
    [False], [data] and [param] to [None]). *)
Inductive Call : Type :=
| CallGet (uri : string) (org : bool)
| CallPatch (uri : string) (org : bool) (data param : pyval)
| CallPost (uri : string) (org : bool) (data param : pyval)
| CallPut (uri : string) (org : bool) (data param : pyval)
| CallDelete (uri : string) (org : bool).

Definition call (self : nat) (c : Call) : M Response :=
  match c with
  | CallGet uri org => get self uri org
  | CallPatch uri org data param => patch self uri org data param
  | CallPost uri org data param => post self uri org data param
  | CallPut uri org data param => put self uri org data param
  | CallDelete uri org => delete self uri org
  end.

(** Calls made one after the other on one session, each in the surroundings
    it meets; an exception ends its call, not the caller's sequence. *)
Fixpoint run_calls (self : nat) (calls : list (Env * Call)) (w : World)
    : list (Outcome Response) * World :=
  match calls with
  | [] => ([], w)
  | (env, c) :: rest =>
      let '(r, w1) := call self c env w in
      let '(rs, w2) := run_calls self rest w1 in
      (r :: rs, w2)
  end.

(** What a program built on the class can do to the world: construct a
    session, or call a verb on any reference. *)
Inductive step : World -> World -> Prop :=
| step_init env account subaccount api_key api_secret w :
    step w (snd (__init__ account subaccount api_key api_secret env w))
| step_call env self c w :
    step w (snd (call self c env w)).

Definition reachable (w : World) : Prop := rtc step initial_world w.

(** *** Names for what the methods send and log *)

(** The request [_get_access_token] hands to the session. *)
Definition token_request (o : Instance) : Request :=
  {| req_method := POST;
     req_uri := _base_url o +:+ "/api/v2/access/tokens";
     req_params := VNone;
     req_json :=
       VDict [("keyId", VStr (_api_key o));
              ("expiryTime", VInt DEFAULT_ACCESS_TOKEN_EXPIRATION)];
     req_headers :=
       {[ "X-LW-UAKS" := VStr (_api_secret o);
          "Content-Type" := VStr "application/json";
          "User-Agent" := VStr user_agent ]} |}.

Definition method_of (c : Call) : Method :=
  match c with
  | CallGet _ _ => GET
  | CallPatch _ _ _ _ => PATCH
  | CallPost _ _ _ _ => POST
  | CallPut _ _ _ _ => PUT
  | CallDelete _ _ => DELETE
  end.

Definition uri_of (c : Call) : string :=
  match c with
  | CallGet uri _ | CallPatch uri _ _ _ | CallPost uri _ _ _
  | CallPut uri _ _ _ | CallDelete uri _ => uri
  end.

Definition org_of (c : Call) : bool :=
  match c with
  | CallGet _ org | CallPatch _ org _ _ | CallPost _ org _ _
  | CallPut _ org _ _ | CallDelete _ org => org
  end.

Definition data_of (c : Call) : pyval :=
  match c with
  | CallPatch _ _ data _ | CallPost _ _ data _ | CallPut _ _ data _ => data
  | CallGet _ _ | CallDelete _ _ => VNone
  end.

Definition param_of (c : Call) : pyval :=
  match c with
  | CallPatch _ _ _ param | CallPost _ _ _ param | CallPut _ _ _ param => param
  | CallGet _ _ | CallDelete _ _ => VNone
  end.

(** The request a verb hands to the session for an instance [o] whose token
    reads [token]. *)
Definition resource_request (token : pyval) (o : Instance) (c : Call) : Request :=
  let headers : gmap string pyval :=
    {[ "Authorization" := token;
       "Org-Access" := VStr (if org_of c then "true" else "false");
       "User-Agent" := VStr user_agent ]} in
  {| req_method := method_of c;
     req_uri := _base_url o +:+ uri_of c;
     req_params := param_of c;
     req_json := data_of c;
     req_headers :=
       if truthy (_subaccount o)
       then <["Account-Name" := VStr (default "" (_subaccount o))]> headers
       else headers |}.

(** The records a verb logs before it dispatches. *)
Definition request_records (o : Instance) (c : Call) : list LogRecord :=
  match c with
  | CallGet uri _ =>
      [Info (Str ("GET request to URI: " +:+ _base_url o +:+ uri))]
  | CallPatch uri _ data _ =>
      [Info (Str ("PATCH request to URI: " +:+ _base_url o +:+ uri));
       Info (Fmt ("PATCH request data:" +:+ nl) data)]
  | CallPost uri _ data _ =>
      [Info (Str ("POST request to URI: " +:+ _base_url o +:+ uri));
       Info (Fmt ("POST request data:" +:+ nl) data)]
  | CallPut uri _ data _ =>
      [Info (Str ("PUT request to URI: " +:+ _base_url o +:+ uri));
       Info (Fmt ("PUT request data:" +:+ nl) data)]
  | CallDelete uri _ =>
      [Info (Str ("DELETE request to URI: " +:+ _base_url o +:+ uri))]
  end.

(** The record [_print_debug_logging] leaves for a response. *)
Definition debug_record (response : Response) : LogRecord :=
  if contains "application/json"
       (lower (headers_get response "Content-Type" ""))
  then
    match json response with
    | Some v => Debug (Dumps v)
    | None => Warning (Str "Error parsing JSON response body")
    end
  else Debug (Str (text response)).

(** A request that carries the secret-key header: a token fetch. *)
Definition is_token_fetch (rq : Request) : bool :=
  bool_decide (is_Some (req_headers rq !! "X-LW-UAKS")).

(** How many of the requests are token fetches. *)
Definition token_fetches (l : list Request) : nat :=
  length (List.filter is_token_fetch l).

(** The token is missing, or [now] is past the expiry. *)
Definition stale (token : pyval) (expiry : option datetime) (t : datetime) : bool :=
  is_None token || match expiry with Some d => d <? t | None => false end.

(** The two fields of the token response, as [_check_access_token] reads
    them: the expiry first. *)
Definition response_expiry (response : Response) : option datetime :=
  match json response with
  | Some (VDict items) =>
      match dict_get "expiresAt" items with
      | Some (VStr s) => strptime s expiry_format
      | _ => None
      end
  | _ => None
  end.

Definition response_token (response : Response) : option pyval :=
  match json response with
  | Some (VDict items) => dict_get "token" items
  | _ => None
  end.

(** What a verb comes to once the token check has returned, in the world [w]
    the check left. *)
Definition dispatched (self : nat) (c : Call) (env : Env) (w : World)
    : Outcome Response * World :=
  match instances (heap w) !! self with
  | None => (Raise InvalidObject, w)
  | Some o =>
      let rq := resource_request (read_access_token (heap w) o) o c in
      let w' := with_sent (fold_left with_logged (request_records o c) w) rq in
      match send env rq with
      | Failed what => (Raise (RequestException what), w')
      | Responded r =>
          if bool_decide (status_code r ∈ DEFAULT_SUCCESS_RESPONSE_CODES)
          then (Return r, with_logged w' (debug_record r))
          else (Raise (ApiError r), w')
      end
  end.

(** The world once the token request of [o] has been handed to the
    session. *)
Definition fetching (o : Instance) (w : World) : World :=
  with_sent (with_logged w (Info (Str "Creating Access Token in Lacework...")))
    (token_request o).

(** The ways a renewal by the instance [o] at reference [self] can end. *)
Inductive renewal (self : nat) (o : Instance) (env : Env) (w : World)
    : Outcome unit -> World -> Prop :=
| renewal_no_response what :
    send env (token_request o) = Failed what ->
    renewal self o env w (Raise (UnboundLocalError "response")) (fetching o w)
| renewal_refused r :
    send env (token_request o) = Responded r ->
    status_code r ∉ DEFAULT_SUCCESS_RESPONSE_CODES ->
    renewal self o env w (Raise (ApiError r)) (fetching o w)
| renewal_no_expiry r e :
    send env (token_request o) = Responded r ->
    status_code r ∈ DEFAULT_SUCCESS_RESPONSE_CODES ->
    response_expiry r = None ->
    renewal self o env w (Raise e)
      (with_logged (fetching o w) (debug_record r))
| renewal_no_token r d :
    send env (token_request o) = Responded r ->
    status_code r ∈ DEFAULT_SUCCESS_RESPONSE_CODES ->
    response_expiry r = Some d ->
    response_token r = None ->
    renewal self o env w (Raise (KeyError "token"))
      (with_instances (with_logged (fetching o w) (debug_record r))
         (<[self := store_access_token_expiry d o]> (instances (heap w))))
| renewal_done r d t :
    send env (token_request o) = Responded r ->
    status_code r ∈ DEFAULT_SUCCESS_RESPONSE_CODES ->
    response_expiry r = Some d ->
    response_token r = Some t ->
    renewal self o env w (Return tt)
      (with_instances (with_logged (fetching o w) (debug_record r))
         (<[self := store_access_token t (store_access_token_expiry d o)]>
            (instances (heap w)))).

(** A token that is not [None] comes with an expiry. *)
Definition token_has_expiry (h : Heap) (o : Instance) : Prop :=
  is_None (read_access_token h o) = false ->
  is_Some (read_access_token_expiry h o).

(** The ways the token check can end. *)
Inductive checked (self : nat) (env : Env) (w : World)
    : Outcome unit -> World -> Prop :=
| checked_invalid :
    instances (heap w) !! self = None ->
    checked self env w (Raise InvalidObject) w
| checked_no_expiry o :
    instances (heap w) !! self = Some o ->
    is_None (read_access_token (heap w) o) = false ->
    read_access_token_expiry (heap w) o = None ->
    checked self env w (Raise TypeError) w
| checked_fresh o :
    instances (heap w) !! self = Some o ->
    token_has_expiry (heap w) o ->
    stale (read_access_token (heap w) o) (read_access_token_expiry (heap w) o)
      (now env) = false ->
    checked self env w (Return tt) w
| checked_renewal o res w' :
    instances (heap w) !! self = Some o ->
    token_has_expiry (heap w) o ->
    stale (read_access_token (heap w) o) (read_access_token_expiry (heap w) o)
      (now env) = true ->
    renewal self o env w res w' ->
    checked self env w res w'.

(** The attributes [__init__] sets, which no method assigns again. *)
Definition same_identity (o o' : Instance) : Prop :=
  _api_key o' = _api_key o /\ _api_secret o' = _api_secret o
  /\ _base_url o' = _base_url o /\ _subaccount o' = _subaccount o.

(** The class object is as the class statement left it, and on every
    instance a token that is not [None] comes with an expiry. *)
Definition heap_ok (h : Heap) : Prop :=
  class_obj h = HttpSession
  /\ forall i o, instances h !! i = Some o -> token_has_expiry h o.

End HttpSessionClass.

(** ** A deployment for the worked examples *)

Definition lacework : Imports :=
  {| version := "0.9.0";
     DEFAULT_BASE_DOMAIN := "lacework.net";
     DEFAULT_ACCESS_TOKEN_EXPIRATION := 3600;
     DEFAULT_SUCCESS_RESPONSE_CODES := [200; 201; 204];
     strptime := strptime_iso |}.

Definition json_body (status : Z) (body : pyval) : Response :=
  {| status_code := status;
     headers := {[ "content-type" := "application/json" ]};
     text := "";
     json := Some body |}.

(** The body of the token endpoint's answer. *)
Definition token_body (token expires_at : string) : pyval :=
  VDict [("expiresAt", VStr expires_at); ("token", VStr token)].

(** A network that answers token fetches with [auth] and every other request
    with [resource]. *)
Definition network (auth resource : HttpResult) (rq : Request) : HttpResult :=
  if bool_decide (is_Some (req_headers rq !! "X-LW-UAKS")) then auth else resource.

(** 2030-01-01T00:00:00Z and 2030-01-01T01:00:00Z. *)
Definition t_2030 : datetime := 1893456000000000.
Definition hour : Z := 3600000000.

Definition events : pyval := VDict [("data", VList [])].

(** A session constructed at 2030-01-01T00:00:00Z; the token endpoint hands
    out the token [abc], good for one hour. *)
Definition env_login : Env :=
  {| now := t_2030;
     send := network
       (Responded (json_body 201 (token_body "abc" "2030-01-01T01:00:00.000000+0000")))
       (Responded (json_body 200 events)) |}.

Definition world_logged_in : World :=
  snd (__init__ (H := lacework) "acme" None "KEY" "SECRET" env_login initial_world).

(** The session that construction leaves at reference 0. *)
Definition session_abc : Instance :=
  {| _api_key := "KEY"; _api_secret := "SECRET";
     _base_url := "https://acme.lacework.net"; _subaccount := None;
     own_access_token := Some (VStr "abc");
     own_access_token_expiry := Some (t_2030 + hour) |}.

(** The token and the expiry a session reads, if the reference is live. *)
Definition observed (w : World) (self : nat)
    : option (pyval * option datetime) :=
  o ← instances (heap w) !! self;
  Some (read_access_token (heap w) o, read_access_token_expiry (heap w) o).

Definition get_events : Call := CallGet "/api/v2/events" false.

(** One second after construction: the token is good. *)
Definition env_events : Env :=
  {| now := t_2030 + 1000000; send := send env_login |}.

(** The instant the token expires. *)
Definition env_at_expiry : Env :=
  {| now := t_2030 + hour; send := send env_login |}.

(** Two hours after construction, with the network down. *)
Definition env_unreachable : Env :=
  {| now := t_2030 + 2 * hour; send := fun _ => Failed "ConnectionError" |}.

(** Two hours after construction; the token endpoint answers 200 with an
    [expiresAt] and no [token]. *)
Definition env_no_token : Env :=
  {| now := t_2030 + 2 * hour;
     send := network
       (Responded (json_body 200
          (VDict [("expiresAt", VStr "2030-01-01T04:00:00.000000+0000")])))
       (Responded (json_body 200 events)) |}.

(** A 200 whose Content-Type says JSON and whose body is a page of HTML,
    and the same response with a body that parses. *)
Definition html_as_json : Response :=
  {| status_code := 200;
     headers := {[ "content-type" := "application/json; charset=utf-8" ]};
     text := "<html>Bad Gateway</html>";
     json := None |}.

Definition env_html : Env :=
  {| now := t_2030 + 1000000;
     send := network (Failed "unused") (Responded html_as_json) |}.

Definition env_parsed : Env :=
  {| now := t_2030 + 1000000;
     send := network (Failed "unused")
       (Responded {| status_code := 200; headers := headers html_as_json;
                     text := text html_as_json; json := Some events |}) |}.

(** A second session is constructed one second after the first; the token
    endpoint now hands out the token [xyz], good until 02:00. *)
Definition env_second_login : Env :=
  {| now := t_2030 + 1000000;
     send := network
       (Responded (json_body 201 (token_body "xyz" "2030-01-01T02:00:00.000000+0000")))
       (Responded (json_body 200 events)) |}.

(** The session that the second construction leaves at reference 1. *)
Definition session_xyz : Instance :=
  {| _api_key := "KEY2"; _api_secret := "SECRET2";
     _base_url := "https://acme.lacework.net"; _subaccount := Some "dev";
     own_access_token := Some (VStr "xyz");
     own_access_token_expiry := Some (t_2030 + 2 * hour) |}.

Definition world_two_sessions : World :=
  snd (__init__ (H := lacework) "acme" (Some "dev") "KEY2" "SECRET2"
         env_second_login world_logged_in).

(** One second after construction; the resource endpoint cannot be reached. *)
Definition env_resource_down : Env :=
  {| now := t_2030 + 1000000;
     send := network (Failed "unused") (Failed "ConnectionError") |}.

(** Two hours after construction; the token endpoint answers 200 with a page
    of HTML. *)
Definition env_html_token : Env :=
  {| now := t_2030 + 2 * hour;
     send := network (Responded html_as_json)
               (Responded (json_body 200 events)) |}.

(** Two hours after construction; the token endpoint hands out the token
    [def], good until 03:00. *)
Definition token_def : Response :=
  json_body 201 (token_body "def" "2030-01-01T03:00:00.000000+0000").

Definition env_renew : Env :=
  {| now := t_2030 + 2 * hour;
     send := network (Responded token_def) (Responded (json_body 200 events)) |}.

(** Two hours after construction; the token endpoint refuses the key. *)
Definition unauthorized : Response :=
  json_body 401 (VDict [("message", VStr "Unauthorized")]).

Definition env_refused : Env :=
  {| now := t_2030 + 2 * hour;
     send := network (Responded unauthorized)
               (Responded (json_body 200 events)) |}.

(** The token response of [env_no_token]. *)
Definition expiry_only : Response :=
  json_body 200
    (VDict [("expiresAt", VStr "2030-01-01T04:00:00.000000+0000")]).

(** A JSON body announced in mixed case, and a body with no Content-Type. *)
Definition mixed_case_json : Response :=
  {| status_code := 200;
     headers := {[ "content-type" := "Application/JSON; charset=UTF-8" ]};
     text := "";
     json := Some events |}.

Definition untyped_body : Response :=
  {| status_code := 200; headers := ∅; text := "pong"; json := Some events |}.

(** * Properties *)

Section Properties.

Context `{Imports}.

Implicit Types (w : World) (env : Env) (o : Instance) (self : nat).
Implicit Types (r : Response) (c : Call).

(** ** The primitives on an allocated reference *)

Lemma lookup_instance_eq self o env w :
  instances (heap w) !! self = Some o ->
  lookup_instance self env w = (Return o, w).
Proof. intros Hs. unfold lookup_instance. by rewrite Hs. Qed.

Lemma update_instance_eq self o f env w :
  instances (heap w) !! self = Some o ->
  update_instance self f env w
  = (Return tt, with_instances w (<[self := f o]> (instances (heap w)))).
Proof. intros Hs. unfold update_instance. by rewrite Hs. Qed.

Lemma getattr_access_token_eq self o env w :
  instances (heap w) !! self = Some o ->
  getattr_access_token self env w = (Return (read_access_token (heap w) o), w).
Proof. intros Hs. unfold getattr_access_token, bind. by rewrite (lookup_instance_eq _ o). Qed.

Lemma getattr_access_token_expiry_eq self o env w :
  instances (heap w) !! self = Some o ->
  getattr_access_token_expiry self env w
  = (Return (read_access_token_expiry (heap w) o), w).
Proof.
  intros Hs. unfold getattr_access_token_expiry, bind.
  by rewrite (lookup_instance_eq _ o).
Qed.

Lemma _print_debug_logging_eq self r env w :
  _print_debug_logging self r env w = (Return tt, with_logged w (debug_record r)).
Proof.
  unfold _print_debug_logging, debug_record.
  destruct (contains _ _); [|done].
  unfold try_except, bind, response_json. by destruct (json r).
Qed.

Lemma _check_response_code_eq self r codes env w :
  _check_response_code self r codes env w
  = (if bool_decide (status_code r ∈ codes) then Return tt else Raise (ApiError r), w).
Proof. unfold _check_response_code. by case_bool_decide. Qed.

Lemma _get_access_token_eq self o env w :
  instances (heap w) !! self = Some o ->
  _get_access_token self env w
  = match send env (token_request o) with
    | Failed _ => (Raise (UnboundLocalError "response"), fetching o w)
    | Responded r =>
        if bool_decide (status_code r ∈ DEFAULT_SUCCESS_RESPONSE_CODES)
        then (Return r, with_logged (fetching o w) (debug_record r))
        else (Raise (ApiError r), fetching o w)
    end.
Proof.
  intros Hs. unfold _get_access_token, bind at 1 2. simpl.
  rewrite (lookup_instance_eq _ o) by done.
  unfold bind at 1, try_except at 1, session_request.
  fold (token_request o).
  destruct (send env (token_request o)) as [r|what]; [|done].
  unfold bind at 1, try_except, bind.
  rewrite _check_response_code_eq. 
  case_bool_decide; [|done].
  by rewrite _print_debug_logging_eq.
Qed.

Lemma token_missing_or_expired_eq self o env w :
  instances (heap w) !! self = Some o ->
  token_missing_or_expired self env w
  = (if is_None (read_access_token (heap w) o) then Return true
     else match read_access_token_expiry (heap w) o with
          | Some d => Return (d <? now env)
          | None => Raise TypeError
          end, w).
Proof.
  intros Hs. unfold token_missing_or_expired, bind at 1.
  rewrite (getattr_access_token_eq _ o) by done.
  destruct (is_None _); [done|].
  unfold bind at 1. rewrite (getattr_access_token_expiry_eq _ o) by done.
  unfold bind, datetime_now, datetime_lt.
  by destruct (read_access_token_expiry _ _).
Qed.

Lemma _check_access_token_fresh self o env w :
  instances (heap w) !! self = Some o ->
  token_has_expiry (heap w) o ->
  stale (read_access_token (heap w) o) (read_access_token_expiry (heap w) o)
    (now env) = false ->
  _check_access_token self env w = (Return tt, w).
Proof.
  intros Hs Hinv Hst. unfold _check_access_token, bind at 1.
  rewrite (token_missing_or_expired_eq _ o) by done.
  unfold stale in Hst. apply orb_false_iff in Hst as [Hn Hd].
  rewrite Hn. destruct (Hinv Hn) as [d Hexp]. rewrite Hexp in Hd |- *.
  by rewrite Hd.
Qed.

Lemma _check_access_token_stale self o env w :
  instances (heap w) !! self = Some o ->
  token_has_expiry (heap w) o ->
  stale (read_access_token (heap w) o) (read_access_token_expiry (heap w) o)
    (now env) = true ->
  uncurry (renewal self o env w) (_check_access_token self env w).
Proof.
  intros Hs Hinv Hst. unfold _check_access_token, bind at 1.
  rewrite (token_missing_or_expired_eq _ o) by done.
  assert ((if is_None (read_access_token (heap w) o) then Return true
           else match read_access_token_expiry (heap w) o with
                | Some d => Return (d <? now env)
                | None => Raise TypeError
                end) = Return true) as ->.
  { unfold stale in Hst. destruct (is_None _) eqn:Hn; [done|].
    destruct (Hinv Hn) as [d Hexp]. rewrite Hexp in Hst |- *.
    simpl in Hst. by rewrite Hst. }
  unfold bind at 1. rewrite (_get_access_token_eq _ o) by done.
  destruct (send env (token_request o)) as [r|what] eqn:Hsend;
    [|by eapply renewal_no_response].
  case_bool_decide as Hcode; [|by eapply renewal_refused].
  unfold bind at 1, response_json at 1.
  destruct (json r) as [body|] eqn:Hjson;
    [|eapply renewal_no_expiry; eauto; unfold response_expiry; by rewrite Hjson].
  unfold bind at 1, ret at 1, subscript at 1.
  destruct body as [| | | | |items];
    try (eapply renewal_no_expiry; eauto; unfold response_expiry; by rewrite Hjson).
  destruct (dict_get "expiresAt" items) as [ea|] eqn:Hea;
    [|eapply renewal_no_expiry; eauto; unfold response_expiry; by rewrite Hjson, Hea].
  unfold bind at 1, ret at 1, datetime_strptime at 1.
  destruct ea as [| | |sea| |];
    try (eapply renewal_no_expiry; eauto; unfold response_expiry; by rewrite Hjson, Hea).
  destruct (strptime sea expiry_format) as [d|] eqn:Hd;
    [|eapply renewal_no_expiry; eauto; unfold response_expiry; by rewrite Hjson, Hea].
  assert (response_expiry r = Some d) as Hre
    by (unfold response_expiry; by rewrite Hjson, Hea).
  unfold bind at 1, ret at 1, setattr_access_token_expiry.
  rewrite (update_instance_eq _ o) by done.
  unfold bind at 1, response_json. rewrite Hjson.
  unfold bind at 1, ret at 1, subscript.
  destruct (dict_get "token" items) as [t|] eqn:Ht.
  - unfold bind, ret, setattr_access_token.
    rewrite (update_instance_eq _ (store_access_token_expiry d o)); last first.
    { simpl. apply list_lookup_insert_eq. by eapply lookup_lt_Some. }
    simpl. unfold with_instances at 1. simpl. rewrite list_insert_insert_eq.
    eapply (renewal_done _ _ _ _ r d t); eauto.
    unfold response_token. by rewrite Hjson.
  - simpl. eapply (renewal_no_token _ _ _ _ r d); eauto.
    unfold response_token. by rewrite Hjson.
Qed.

Lemma _check_access_token_checked self env w :
  uncurry (checked self env w) (_check_access_token self env w).
Proof.
  destruct (instances (heap w) !! self) as [o|] eqn:Hs.
  - destruct (is_None (read_access_token (heap w) o)) eqn:Hn.
    + assert (token_has_expiry (heap w) o) as Hinv
        by (intros Hn'; congruence).
      assert (stale (read_access_token (heap w) o)
                (read_access_token_expiry (heap w) o) (now env) = true) as Hst
        by (unfold stale; by rewrite Hn).
      pose proof (_check_access_token_stale _ _ env _ Hs Hinv Hst) as Hr.
      destruct (_check_access_token self env w) as [res w'].
      by eapply checked_renewal.
    + destruct (read_access_token_expiry (heap w) o) as [d|] eqn:Hexp.
      * assert (token_has_expiry (heap w) o) as Hinv
          by (intros _; rewrite Hexp; eauto).
        destruct (stale (read_access_token (heap w) o)
                    (read_access_token_expiry (heap w) o) (now env)) eqn:Hst.
        -- pose proof (_check_access_token_stale _ _ env _ Hs Hinv Hst) as Hr.
           destruct (_check_access_token self env w) as [res w'].
           by eapply checked_renewal.
        -- rewrite (_check_access_token_fresh _ o) by done.
           by eapply checked_fresh.
      * unfold _check_access_token, bind.
        rewrite (token_missing_or_expired_eq _ o) by done.
        rewrite Hn, Hexp. by eapply checked_no_expiry.
  - unfold _check_access_token, bind, token_missing_or_expired, bind,
      getattr_access_token, bind, lookup_instance.
    rewrite Hs. by apply checked_invalid.
Qed.

(** ** Every verb is the token check followed by the dispatch *)

Lemma _get_request_headers_eq self o org env w :
  instances (heap w) !! self = Some o ->
  _get_request_headers self org env w
  = (Return (req_headers
       (resource_request (read_access_token (heap w) o) o (CallGet "" org))), w).
Proof.
  intros Hs. unfold _get_request_headers, bind at 1.
  rewrite (getattr_access_token_eq _ o) by done.
  unfold bind. by rewrite (lookup_instance_eq _ o).
Qed.

Lemma call_eq self c env w :
  call self c env w
  = match _check_access_token self env w with
    | (Return _, w1) => dispatched self c env w1
    | (Raise e, w1) => (Raise e, w1)
    end.
Proof.
  destruct c; unfold call, get, patch, post, put, delete, bind at 1;
    destruct (_check_access_token self env w) as [[[]|e] w1]; try done;
    unfold dispatched, bind at 1, lookup_instance;
    destruct (instances (heap w1) !! self) as [o|] eqn:Hs; try done;
    unfold bind at 1, logger at 1;
    try (unfold bind at 1, logger at 1);
    unfold bind at 1;
    rewrite (_get_request_headers_eq _ o) by done;
    unfold bind at 1, session_request; simpl;
    unfold resource_request; simpl;
    match goal with |- context [send env ?rq] => destruct (send env rq) end;
    try done;
    unfold bind at 1; rewrite _check_response_code_eq;
    case_bool_decide; try done;
    unfold bind; by rewrite _print_debug_logging_eq.
Qed.

(** ** What a renewal and a dispatch leave untouched *)

Lemma same_identity_refl o : same_identity o o.
Proof. by repeat split. Qed.

Lemma renewal_frame self o env w res w' :
  instances (heap w) !! self = Some o ->
  renewal self o env w res w' ->
  class_obj (heap w') = class_obj (heap w)
  /\ sent w' = sent w ++ [token_request o]
  /\ length (instances (heap w')) = length (instances (heap w))
  /\ (forall i, i <> self ->
        instances (heap w') !! i = instances (heap w) !! i)
  /\ exists o', instances (heap w') !! self = Some o' /\ same_identity o o'.
Proof.
  intros Hs Hr. pose proof (lookup_lt_Some _ _ _ Hs) as Hlt.
  destruct Hr; simpl; (split; [done|]); (split; [done|]);
    rewrite ?length_insert; (split; [done|]);
    (split; [by intros i Hi; rewrite ?list_lookup_insert_ne|]).
  all: try (exists o; by auto using same_identity_refl).
  all: eexists; rewrite list_lookup_insert_eq by done; repeat split; eauto.
Qed.

Lemma token_has_expiry_class h h' o :
  class_obj h' = class_obj h -> token_has_expiry h o -> token_has_expiry h' o.
Proof.
  unfold token_has_expiry, read_access_token, read_access_token_expiry.
  by intros ->.
Qed.

Lemma renewal_heap_ok self o env w res w' :
  instances (heap w) !! self = Some o ->
  renewal self o env w res w' ->
  heap_ok (heap w) -> heap_ok (heap w').
Proof.
  intros Hs Hr [Hc Hi]. pose proof (lookup_lt_Some _ _ _ Hs) as Hlt.
  destruct Hr; try done; (split; [done|]); simpl; intros i oi Hoi.
  all: destruct (decide (i = self)) as [->|Hne];
    [ rewrite list_lookup_insert_eq in Hoi by done; injection Hoi as <-;
      intros _; unfold read_access_token_expiry; simpl; eauto
    | rewrite list_lookup_insert_ne in Hoi by done;
      eapply token_has_expiry_class; [|by eapply Hi]; done ].
Qed.

Lemma checked_frame self env w res w' :
  checked self env w res w' ->
  class_obj (heap w') = class_obj (heap w)
  /\ length (instances (heap w')) = length (instances (heap w))
  /\ (forall i, i <> self ->
        instances (heap w') !! i = instances (heap w) !! i)
  /\ (forall o, instances (heap w) !! self = Some o ->
        exists o', instances (heap w') !! self = Some o'
          /\ same_identity o o').
Proof.
  destruct 1 as [Hs|o Hs _ _|o Hs _ _|o res w' Hs _ _ Hr];
    try (repeat split; try done; intros o' Ho';
         exists o'; by auto using same_identity_refl).
  destruct (renewal_frame _ _ _ _ _ _ Hs Hr) as (Hc & _ & Hl & Hi & Ho).
  repeat split; try done. intros o' Ho'. by simplify_eq.
Qed.

Lemma checked_heap_ok self env w res w' :
  checked self env w res w' -> heap_ok (heap w) -> heap_ok (heap w').
Proof.
  destruct 1 as [| | |o res w' Hs _ _ Hr]; try done.
  by eapply renewal_heap_ok.
Qed.

Lemma dispatched_heap self c env w : heap (dispatched self c env w).2 = heap w.
Proof.
  unfold dispatched. destruct (instances (heap w) !! self) as [o|]; [|done].
  assert (forall l w0, heap (fold_left with_logged l w0) = heap w0) as Hfold
    by (induction l as [|a l IH]; [done|]; intros w0; simpl; by rewrite IH).
  destruct (send env _); [case_bool_decide|]; simpl; by rewrite Hfold.
Qed.

Lemma dispatched_sent self o c env w :
  instances (heap w) !! self = Some o ->
  sent (dispatched self c env w).2
  = sent w ++ [resource_request (read_access_token (heap w) o) o c].
Proof.
  intros Hs. unfold dispatched. rewrite Hs.
  assert (forall l w0, sent (fold_left with_logged l w0) = sent w0) as Hfold
    by (induction l as [|a l IH]; [done|]; intros w0; simpl; by rewrite IH).
  destruct (send env _); [case_bool_decide|]; simpl; by rewrite Hfold.
Qed.

(** The constructor is an allocation followed by the token check. *)
Lemma __init___eq account subaccount api_key api_secret env w :
  __init__ account subaccount api_key api_secret env w
  = let o :=
      {| _api_key := api_key; _api_secret := api_secret;
         _base_url := "https://" +:+ account +:+ "." +:+ DEFAULT_BASE_DOMAIN;
         _subaccount := subaccount;
         own_access_token := None; own_access_token_expiry := None |} in
    let self := length (instances (heap w)) in
    match _check_access_token self env
            (with_instances w (instances (heap w) ++ [o])) with
    | (Return _, w1) => (Return self, w1)
    | (Raise e, w1) => (Raise e, w1)
    end.
Proof.
  unfold __init__, bind at 1, alloc. simpl. unfold bind.
  by destruct (_check_access_token _ _ _) as [[[]|e] w1].
Qed.

Lemma step_heap_ok w w' : step w w' -> heap_ok (heap w) -> heap_ok (heap w').
Proof.
  destruct 1 as [env account subaccount api_key api_secret w|env self c w];
    intros Hok.
  - rewrite __init___eq. simpl.
    set (o := mkInstance _ _ _ _ _ _).
    set (w0 := with_instances w _).
    assert (heap_ok (heap w0)) as Hok0.
    { destruct Hok as [Hc Hi]. split; [done|]. simpl. intros i oi Hoi.
      apply lookup_app_Some in Hoi as [Hoi|[_ Hoi]].
      - eapply token_has_expiry_class; [|by eapply Hi]. done.
      - apply list_lookup_singleton_Some in Hoi as [_ <-].
        unfold token_has_expiry, read_access_token. simpl.
        rewrite Hc. simpl. congruence. }
    pose proof (_check_access_token_checked (length (instances (heap w))) env w0)
      as Hch.
    destruct (_check_access_token _ _ _) as [[[]|e] w1]; simpl in *;
      by eapply checked_heap_ok.
  - rewrite call_eq.
    pose proof (_check_access_token_checked self env w) as Hch.
    destruct (_check_access_token _ _ _) as [[[]|e] w1]; simpl in *.
    + rewrite dispatched_heap. by eapply checked_heap_ok.
    + by eapply checked_heap_ok.
Qed.

Lemma reachable_heap_ok w : reachable w -> heap_ok (heap w).
Proof.
  unfold reachable. revert w. apply rtc_ind_r.
  - split; [done|]. intros i o Hio. by destruct i.
  - intros w1 w2 _ Hstep IH. by eapply step_heap_ok.
Qed.

(** ** The token check *)

Lemma is_None_true v : is_None v = true <-> v = VNone.
Proof. by destruct v. Qed.

Lemma is_None_false v : is_None v = false <-> v <> VNone.
Proof. by destruct v. Qed.

Lemma stale_true token expiry t :
  (is_None token = false -> is_Some expiry) ->
  stale token expiry t = true
  <-> token = VNone \/ exists d, expiry = Some d /\ d < t.
Proof.
  intros Hinv. unfold stale. rewrite orb_true_iff, is_None_true. split.
  - intros [->|Hd]; [by left|]. destruct expiry as [d|]; [|done].
    right. exists d. split; [done|]. by apply Z.ltb_lt.
  - intros [->|(d & -> & Hd)]; [by left|]. right. by apply Z.ltb_lt.
Qed.

Lemma stale_false token expiry t :
  (is_None token = false -> is_Some expiry) ->
  stale token expiry t = false
  <-> token <> VNone /\ exists d, expiry = Some d /\ t <= d.
Proof.
  intros Hinv. unfold stale. rewrite orb_false_iff, is_None_false. split.
  - intros [Hn Hd]. split; [done|].
    destruct Hinv as [d ->]; [by apply is_None_false|].
    exists d. split; [done|]. by apply Z.ltb_ge.
  - intros [Hn (d & -> & Hd)]. split; [done|]. by apply Z.ltb_ge.
Qed.

(** C3, as the code has it. On a session of a reachable world, the token
    check hands a token request to the session if and only if no token is
    cached or the cached expiry is strictly before the current UTC time; at
    the instant where now equals the cached expiry, and before it, nothing
    is sent. *)
Theorem C3_fetch_iff_missing_or_past_expiry self env w o :
  reachable w ->
  instances (heap w) !! self = Some o ->
  let token := read_access_token (heap w) o in
  let expiry := read_access_token_expiry (heap w) o in
  let w' := (_check_access_token self env w).2 in
  (sent w' = sent w ++ [token_request o]
   /\ (token = VNone \/ exists d, expiry = Some d /\ d < now env))
  \/ (sent w' = sent w
      /\ token <> VNone /\ exists d, expiry = Some d /\ now env <= d).
Proof.
  intros Hreach Hs token expiry w'.
  destruct (reachable_heap_ok _ Hreach) as [_ Hinv]. specialize (Hinv _ _ Hs).
  pose proof (_check_access_token_checked self env w) as Hch. subst w'.
  destruct (_check_access_token self env w) as [res w']. simpl in *.
  destruct Hch as [Hs'|o' Hs' Hn He|o' Hs' _ Hst|o' res w' Hs' _ Hst Hr];
    simplify_eq.
  - destruct (Hinv Hn) as [d Hd]. congruence.
  - right. split; [done|]. by apply (stale_false _ _ _ Hinv).
  - left. split; [|by apply (stale_true _ _ _ Hinv)].
    by destruct (renewal_frame _ _ _ _ _ _ Hs Hr) as (_ & ? & _).
Qed.

(** C4, as the code has it. A renewal stores the expiry first and the
    token second, each read from the token response just before it is
    stored.  On a session of a reachable world, a token check made while the
    token is cached and not past its expiry returns and changes nothing.  A
    check made when the token is missing or expired ends in one of five
    ways, decided by the answer to the token request: no answer, or a status
    outside the allow-list, or no readable [expiresAt]: the check raises and
    the session is as it was; a readable [expiresAt] and no [token]: the
    check raises [KeyError], the expiry is the new one and the token still
    the previous one; both readable: the check returns and both fields hold
    the new values.  The token is never replaced while the expiry stays
    behind. *)
Theorem C4_expiry_stored_before_token self env w o :
  reachable w ->
  instances (heap w) !! self = Some o ->
  let token := read_access_token (heap w) o in
  let expiry := read_access_token_expiry (heap w) o in
  let R := _check_access_token self env w in
  exists o',
    instances (heap R.2) !! self = Some o'
    /\ (token <> VNone /\ (exists d, expiry = Some d /\ now env <= d) ->
        R = (Return tt, w) /\ o' = o)
    /\ (token = VNone \/ (exists d, expiry = Some d /\ d < now env) ->
        (forall what,
            send env (token_request o) = Failed what ->
            R.1 = Raise (UnboundLocalError "response") /\ o' = o)
        /\ (forall r,
            send env (token_request o) = Responded r ->
            status_code r ∉ DEFAULT_SUCCESS_RESPONSE_CODES ->
            R.1 = Raise (ApiError r) /\ o' = o)
        /\ (forall r,
            send env (token_request o) = Responded r ->
            status_code r ∈ DEFAULT_SUCCESS_RESPONSE_CODES ->
            response_expiry r = None ->
            (exists e, R.1 = Raise e) /\ o' = o)
        /\ (forall r d,
            send env (token_request o) = Responded r ->
            status_code r ∈ DEFAULT_SUCCESS_RESPONSE_CODES ->
            response_expiry r = Some d ->
            response_token r = None ->
            R.1 = Raise (KeyError "token")
            /\ own_access_token o' = own_access_token o
            /\ own_access_token_expiry o' = Some d)
        /\ (forall r d t,
            send env (token_request o) = Responded r ->
            status_code r ∈ DEFAULT_SUCCESS_RESPONSE_CODES ->
            response_expiry r = Some d ->
            response_token r = Some t ->
            R.1 = Return tt
            /\ own_access_token o' = Some t
            /\ own_access_token_expiry o' = Some d)).
Proof.
  intros Hreach Hs token expiry R. subst R.
  pose proof (lookup_lt_Some _ _ _ Hs) as Hlt.
  destruct (reachable_heap_ok _ Hreach) as [_ Hinv]. specialize (Hinv _ _ Hs).
  destruct (stale token expiry (now env)) eqn:Hst.
  - pose proof (_check_access_token_stale _ _ env _ Hs Hinv Hst) as Hr.
    assert (~ (token <> VNone /\ exists d, expiry = Some d /\ now env <= d))
      as Hdue.
    { intros Hfresh%(stale_false _ _ _ Hinv).
      unfold token, expiry in Hst. congruence. }
    destruct (_check_access_token self env w) as [res w1]. simpl in Hr.
    destruct Hr as [what Hsend|r Hsend Hcode|r e Hsend Hcode Hexp
                    |r d Hsend Hcode Hexp Htok|r d t Hsend Hcode Hexp Htok];
      simpl; eexists; rewrite ?list_lookup_insert_eq by done;
      (split; [done|]); (split; [done|]); intros _;
      repeat split; intros;
      repeat match goal with
             | H1 : send env ?x = _, H2 : send env ?x = _ |- _ =>
                 rewrite H1 in H2; simplify_eq
             | H1 : response_expiry ?x = _, H2 : response_expiry ?x = _ |- _ =>
                 rewrite H1 in H2; simplify_eq
             | H1 : response_token ?x = _, H2 : response_token ?x = _ |- _ =>
                 rewrite H1 in H2; simplify_eq
             end;
      try done; eauto.
  - assert (token <> VNone /\ exists d, expiry = Some d /\ now env <= d)
      as Hfresh by (by apply (stale_false _ _ _ Hinv)).
    rewrite (_check_access_token_fresh _ o) by done. simpl.
    exists o. split; [done|]. split; [done|].
    intros Hdue%(stale_true _ _ _ Hinv).
    unfold token, expiry in Hst. congruence.
Qed.

(** C10. In every reachable world and on every session in it, a token that
    is not [None] comes with an expiry that is a datetime; so the condition
    of the token check, which compares the expiry with the current time only
    when the token is not [None], always evaluates to a boolean and never
    raises. *)
Theorem C10_expiry_check_is_total w self o env :
  reachable w ->
  instances (heap w) !! self = Some o ->
  (read_access_token (heap w) o <> VNone ->
   exists d, read_access_token_expiry (heap w) o = Some d)
  /\ exists b, token_missing_or_expired self env w = (Return b, w).
Proof.
  intros Hreach Hs.
  destruct (reachable_heap_ok _ Hreach) as [_ Hinv]. specialize (Hinv _ _ Hs).
  split.
  - intros Hn. by apply Hinv, is_None_false.
  - rewrite (token_missing_or_expired_eq _ o) by done.
    destruct (is_None _) eqn:Hn; [by eexists|].
    destruct (Hinv Hn) as [d ->]. by eexists.
Qed.

(** ** The verbs *)

(** C1. For every verb and every allow-list of success codes: once the
    token check has returned and the session has answered the dispatched
    request with [r], the verb returns [r] when the status code of [r] is in
    the allow-list, and raises [ApiError] carrying [r] when it is not. *)
Theorem C1_status_decides_outcome c self env w w1 o r :
  _check_access_token self env w = (Return tt, w1) ->
  instances (heap w1) !! self = Some o ->
  send env (resource_request (read_access_token (heap w1) o) o c) = Responded r ->
  sent (call self c env w).2
  = sent w1 ++ [resource_request (read_access_token (heap w1) o) o c]
  /\ (status_code r ∈ DEFAULT_SUCCESS_RESPONSE_CODES ->
      (call self c env w).1 = Return r)
  /\ (status_code r ∉ DEFAULT_SUCCESS_RESPONSE_CODES ->
      (call self c env w).1 = Raise (ApiError r)).
Proof.
  intros Hch Hs Hsend. rewrite call_eq, Hch.
  split; [by apply dispatched_sent|].
  unfold dispatched. rewrite Hs, Hsend.
  split; intros Hcode; by case_bool_decide.
Qed.

(** C6. For every verb call, the headers of the dispatched request are
    exactly: [Authorization], the token as cached once the token check has
    returned; [Org-Access], the string ["true"] when the org flag is true and
    ["false"] when it is false (the default); [User-Agent], the client
    identifier; and [Account-Name], the sub-account, present exactly when
    the sub-account is configured, that is, when it is neither [None] nor
    empty. *)
Theorem C6_request_headers c self env w w1 o :
  _check_access_token self env w = (Return tt, w1) ->
  instances (heap w1) !! self = Some o ->
  exists rq,
    sent (call self c env w).2 = sent w1 ++ [rq]
    /\ req_headers rq !! "Authorization" = Some (read_access_token (heap w1) o)
    /\ req_headers rq !! "Org-Access"
       = Some (VStr (if org_of c then "true" else "false"))
    /\ req_headers rq !! "User-Agent"
       = Some (VStr ("laceworksdk-python-client/" +:+ version))
    /\ req_headers rq !! "Account-Name"
       = match _subaccount o with
         | Some (String a s) => Some (VStr (String a s))
         | _ => None
         end
    /\ forall k, k <> "Authorization" -> k <> "Org-Access" ->
         k <> "User-Agent" -> k <> "Account-Name" ->
         req_headers rq !! k = None.
Proof.
  intros Hch Hs. eexists. rewrite call_eq, Hch.
  split; [by apply dispatched_sent|].
  unfold resource_request, truthy. simpl.
  destruct (_subaccount o) as [[|a s]|]; simpl;
    repeat split; try intros k ? ? ? ?; by simplify_map_eq.
Qed.

(** C8. For a response whose Content-Type indicates JSON and whose body
    does not parse, the debug-logging step logs a warning and returns; the
    verb that received it ends as it does on the same response with a body
    that parses: the same heap, the same requests sent, and the response
    returned (or [ApiError] raised) on the same condition.  Only the last
    log record differs. *)
Theorem C8_unparsable_json_is_only_logged c self env env' w w1 o r v :
  let r' := {| status_code := status_code r; headers := headers r;
               text := text r; json := Some v |} in
  let rq := resource_request (read_access_token (heap w1) o) o c in
  contains "application/json" (lower (headers_get r "Content-Type" "")) = true ->
  json r = None ->
  _check_access_token self env w = (Return tt, w1) ->
  _check_access_token self env' w = (Return tt, w1) ->
  instances (heap w1) !! self = Some o ->
  send env rq = Responded r ->
  send env' rq = Responded r' ->
  _print_debug_logging self r env w
  = (Return tt, with_logged w (Warning (Str "Error parsing JSON response body")))
  /\ heap (call self c env w).2 = heap (call self c env' w).2
  /\ sent (call self c env w).2 = sent (call self c env' w).2
  /\ (((call self c env w).1 = Return r /\ (call self c env' w).1 = Return r'
       /\ (exists l,
             logged (call self c env w).2
             = l ++ [Warning (Str "Error parsing JSON response body")]
             /\ logged (call self c env' w).2 = l ++ [Debug (Dumps v)]))
      \/ ((call self c env w).1 = Raise (ApiError r)
          /\ (call self c env' w).1 = Raise (ApiError r')
          /\ logged (call self c env w).2 = logged (call self c env' w).2)).
Proof.
  intros r' rq Hct Hjson Hch Hch' Hs Hsend Hsend'.
  split.
  { rewrite _print_debug_logging_eq. unfold debug_record. by rewrite Hct, Hjson. }
  rewrite !call_eq, Hch, Hch'. unfold dispatched. rewrite Hs.
  fold rq. rewrite Hsend, Hsend'.
  change (status_code r') with (status_code r).
  case_bool_decide; simpl; (split; [done|]); (split; [done|]).
  - left. repeat (split; [done|]). eexists. unfold debug_record.
    change (headers_get r' "Content-Type" "")
      with (headers_get r "Content-Type" "").
    by rewrite Hct, Hjson.
  - by right.
Qed.

(** ** Sequences of calls *)

Lemma is_token_fetch_token_request o : is_token_fetch (token_request o) = true.
Proof.
  unfold is_token_fetch, token_request. simpl.
  apply bool_decide_eq_true. by simplify_map_eq.
Qed.

Lemma is_token_fetch_resource_request token o c :
  is_token_fetch (resource_request token o c) = false.
Proof.
  unfold is_token_fetch, resource_request. simpl.
  apply bool_decide_eq_false. intros [v Hv].
  destruct (truthy _); by simplify_map_eq.
Qed.

Lemma token_fetches_app l1 l2 :
  token_fetches (l1 ++ l2) = (token_fetches l1 + token_fetches l2)%nat.
Proof. unfold token_fetches. by rewrite List.filter_app, length_app. Qed.

Lemma call_fresh self o c env w :
  instances (heap w) !! self = Some o ->
  token_has_expiry (heap w) o ->
  stale (read_access_token (heap w) o) (read_access_token_expiry (heap w) o)
    (now env) = false ->
  call self c env w = dispatched self c env w.
Proof.
  intros Hs Hinv Hst. by rewrite call_eq, (_check_access_token_fresh _ o).
Qed.

Lemma run_calls_fresh self o calls w :
  instances (heap w) !! self = Some o ->
  token_has_expiry (heap w) o ->
  (forall env c, (env, c) ∈ calls ->
     stale (read_access_token (heap w) o)
       (read_access_token_expiry (heap w) o) (now env) = false) ->
  heap (run_calls self calls w).2 = heap w
  /\ exists l, sent (run_calls self calls w).2 = sent w ++ l
       /\ token_fetches l = 0%nat /\ length l = length calls.
Proof.
  revert w. induction calls as [|[env c] calls IH]; intros w Hs Hinv Hst.
  - split; [done|]. exists []. by rewrite app_nil_r.
  - simpl. rewrite (call_fresh _ o) by (try done; apply (Hst env c); by left).
    pose proof (dispatched_heap self c env w) as Hheap.
    pose proof (dispatched_sent self o c env w Hs) as Hsent.
    destruct (dispatched self c env w) as [res w1]. simpl in *.
    destruct (IH w1) as [Hheap' (l & Hsent' & Hl & Hlen)].
    { by rewrite Hheap. }
    { by rewrite Hheap. }
    { intros env' c' Hin. rewrite Hheap. apply (Hst env' c'). by right. }
    destruct (run_calls self calls w1) as [rs w2]. simpl in *.
    split; [congruence|]. eexists (_ :: l).
    rewrite Hsent', Hsent, <- app_assoc. split; [done|].
    split; [|simpl; congruence].
    change (?x :: l) with ([x] ++ l). rewrite token_fetches_app, Hl.
    unfold token_fetches. simpl. by rewrite is_token_fetch_resource_request.
Qed.

(** C5. On a session of a reachable world, every verb call sends at most
    one token fetch, and sends one exactly when the cached token is missing
    or its expiry is before the current time; that fetch is then the first
    request of the call, ahead of the resource request.  Any number of
    consecutive calls made while the token is cached and not past its expiry
    send no token fetch at all, only their resource requests. *)
Theorem C5_one_fetch_only_when_stale self w o :
  reachable w ->
  instances (heap w) !! self = Some o ->
  let token := read_access_token (heap w) o in
  let expiry := read_access_token_expiry (heap w) o in
  (forall c env, exists l,
      sent (call self c env w).2 = sent w ++ l
      /\ (token_fetches l <= 1)%nat
      /\ (token_fetches l = 1%nat ->
          token = VNone \/ exists d, expiry = Some d /\ d < now env)
      /\ (token = VNone \/ (exists d, expiry = Some d /\ d < now env) ->
          exists l', l = token_request o :: l' /\ token_fetches l' = 0%nat
            /\ token_fetches l = 1%nat))
  /\ (forall calls,
      token <> VNone ->
      (forall env c d, (env, c) ∈ calls -> expiry = Some d -> now env <= d) ->
      exists l, sent (run_calls self calls w).2 = sent w ++ l
        /\ token_fetches l = 0%nat /\ length l = length calls).
Proof.
  intros Hreach Hs token expiry.
  destruct (reachable_heap_ok _ Hreach) as [_ Hinv]. specialize (Hinv _ _ Hs).
  split.
  - intros c env.
    destruct (stale token expiry (now env)) eqn:Hst.
    + pose proof (_check_access_token_stale _ _ env _ Hs Hinv Hst) as Hr.
      rewrite call_eq.
      destruct (_check_access_token self env w) as [res w1]. simpl in Hr.
      destruct (renewal_frame _ _ _ _ _ _ Hs Hr)
        as (_ & Hsent & _ & _ & o1 & Hs1 & _).
      assert (exists l', sent (match res with
                               | Return _ => dispatched self c env w1
                               | Raise e => (Raise e, w1)
                               end).2 = sent w ++ token_request o :: l'
                         /\ token_fetches l' = 0%nat) as (l' & -> & Hl').
      { destruct res as [[]|e].
        - rewrite (dispatched_sent _ o1) by done. rewrite Hsent, <- app_assoc.
          eexists [_]. split; [done|]. unfold token_fetches. simpl.
          by rewrite is_token_fetch_resource_request.
        - exists []. simpl. by rewrite Hsent. }
      assert (token_fetches (token_request o :: l') = 1%nat) as Hone.
      { change (?x :: l') with ([x] ++ l'). rewrite token_fetches_app, Hl'.
        unfold token_fetches. simpl. by rewrite is_token_fetch_token_request. }
      eexists. split; [done|]. rewrite Hone. split; [lia|].
      split; [intros _; by apply (stale_true _ _ _ Hinv)|].
      intros _. by exists l'.
    + rewrite (call_fresh _ o) by done. rewrite (dispatched_sent _ o) by done.
      assert (token_fetches [resource_request token o c] = 0%nat) as Hzero.
      { unfold token_fetches. simpl.
        by rewrite is_token_fetch_resource_request. }
      eexists. split; [done|]. fold token. rewrite Hzero.
      split; [lia|]. split; [done|].
      intros Hst'. apply (stale_true _ _ _ Hinv) in Hst'.
      unfold token, expiry in Hst. congruence.
  - intros calls Htok Hwin.
    eapply (run_calls_fresh self o calls w Hs Hinv).
    intros env c Hin. apply (stale_false _ _ _ Hinv). split; [done|].
    destruct Hinv as [d Hd]; [by apply is_None_false|].
    exists d. split; [done|]. by eapply Hwin.
Qed.

(** ** Construction and separate sessions *)

(** C7. On a reachable world the constructor binds the base URL
    [https://{account}.{DEFAULT_BASE_DOMAIN}] on the new instance and at once
    hands one token request for it to the session.  When the token endpoint
    answers with a status outside the allow-list, as it does for invalid
    credentials, the constructor raises [ApiError] with that response and
    returns no session; when the constructor returns, it returns the
    reference of the new instance. *)
Theorem C7_constructor_fetches_eagerly account subaccount api_key api_secret
    env w :
  reachable w ->
  let o :=
    {| _api_key := api_key; _api_secret := api_secret;
       _base_url := "https://" +:+ account +:+ "." +:+ DEFAULT_BASE_DOMAIN;
       _subaccount := subaccount;
       own_access_token := None; own_access_token_expiry := None |} in
  let self := length (instances (heap w)) in
  let R := __init__ account subaccount api_key api_secret env w in
  sent R.2 = sent w ++ [token_request o]
  /\ (exists o', instances (heap R.2) !! self = Some o'
        /\ _base_url o' = "https://" +:+ account +:+ "." +:+ DEFAULT_BASE_DOMAIN)
  /\ (forall r, send env (token_request o) = Responded r ->
        status_code r ∉ DEFAULT_SUCCESS_RESPONSE_CODES ->
        R.1 = Raise (ApiError r))
  /\ (forall ref, R.1 = Return ref -> ref = self).
Proof.
  intros Hreach o self R. subst R. rewrite __init___eq. simpl.
  fold o self. set (w0 := with_instances w (instances (heap w) ++ [o])).
  destruct (reachable_heap_ok _ Hreach) as [Hc _].
  assert (instances (heap w0) !! self = Some o) as Hs
    by apply list_lookup_middle, eq_refl.
  assert (read_access_token (heap w0) o = VNone) as Htok
    by (unfold read_access_token; simpl; by rewrite Hc).
  assert (token_has_expiry (heap w0) o) as Hinv
    by (intros Hn; rewrite Htok in Hn; done).
  assert (stale (read_access_token (heap w0) o)
            (read_access_token_expiry (heap w0) o) (now env) = true) as Hst
    by (unfold stale; by rewrite Htok).
  pose proof (_check_access_token_stale _ _ env _ Hs Hinv Hst) as Hr.
  destruct (_check_access_token self env w0) as [res w1]. simpl in Hr.
  destruct (renewal_frame _ _ _ _ _ _ Hs Hr)
    as (_ & Hsent & _ & _ & o1 & Hs1 & _ & _ & Hurl & _).
  repeat split.
  - by destruct res as [[]|e].
  - exists o1. by destruct res as [[]|e].
  - intros r Hsend Hcode.
    destruct Hr as [what Hs'|r' Hs' Hc'|r' e Hs' Hc' _|r' d Hs' Hc' _ _
                    |r' d t Hs' Hc' _ _];
      rewrite Hsend in Hs'; by simplify_eq.
  - intros ref Href. destruct res as [[]|e]; simpl in Href; by simplify_eq.
Qed.

Lemma __init___renews account subaccount api_key api_secret env w :
  reachable w ->
  let o :=
    {| _api_key := api_key; _api_secret := api_secret;
       _base_url := "https://" +:+ account +:+ "." +:+ DEFAULT_BASE_DOMAIN;
       _subaccount := subaccount;
       own_access_token := None; own_access_token_expiry := None |} in
  let self := length (instances (heap w)) in
  let w0 := with_instances w (instances (heap w) ++ [o]) in
  instances (heap w0) !! self = Some o
  /\ uncurry (renewal self o env w0) (_check_access_token self env w0).
Proof.
  intros Hreach o self w0.
  destruct (reachable_heap_ok _ Hreach) as [Hc _].
  assert (instances (heap w0) !! self = Some o) as Hs
    by apply list_lookup_middle, eq_refl.
  assert (read_access_token (heap w0) o = VNone) as Htok
    by (unfold read_access_token; simpl; by rewrite Hc).
  split; [done|]. apply (_check_access_token_stale _ o); [done| |].
  - intros Hn. rewrite Htok in Hn. done.
  - unfold stale. by rewrite Htok.
Qed.

(** C9, as the code has it. The class object only supplies the initial
    [None] of the two attributes; an assignment through [self] binds them on
    the instance.  In every reachable world the class attributes are [None]
    and each session reads its own token and expiry, or [None].  A verb call
    on one session, and the construction of a new one, leave the class
    attributes and the token and expiry of every other session as they
    were.  A new session, whatever the others hold, sends a token request of
    its own; it is returned exactly when that request is answered with a
    success status, a readable [expiresAt] and a [token], and it then holds
    that token and that expiry. *)
Theorem C9_token_state_is_per_instance env w :
  reachable w ->
  class_obj (heap w) = HttpSession
  /\ (forall i o, instances (heap w) !! i = Some o ->
        read_access_token (heap w) o = default VNone (own_access_token o)
        /\ read_access_token_expiry (heap w) o = own_access_token_expiry o)
  /\ (forall self c,
        class_obj (heap (call self c env w).2) = class_obj (heap w)
        /\ forall i, i <> self ->
             instances (heap (call self c env w).2) !! i
             = instances (heap w) !! i)
  /\ (forall account subaccount api_key api_secret,
        let o :=
          {| _api_key := api_key; _api_secret := api_secret;
             _base_url :=
               "https://" +:+ account +:+ "." +:+ DEFAULT_BASE_DOMAIN;
             _subaccount := subaccount;
             own_access_token := None; own_access_token_expiry := None |} in
        let self := length (instances (heap w)) in
        let R := __init__ account subaccount api_key api_secret env w in
        class_obj (heap R.2) = class_obj (heap w)
        /\ (forall i oi, instances (heap w) !! i = Some oi ->
              instances (heap R.2) !! i = Some oi)
        /\ sent R.2 = sent w ++ [token_request o]
        /\ (forall r d t,
              send env (token_request o) = Responded r ->
              status_code r ∈ DEFAULT_SUCCESS_RESPONSE_CODES ->
              response_expiry r = Some d ->
              response_token r = Some t ->
              R.1 = Return self
              /\ exists o', instances (heap R.2) !! self = Some o'
                   /\ own_access_token o' = Some t
                   /\ own_access_token_expiry o' = Some d)
        /\ (forall ref, R.1 = Return ref ->
              exists r d t o',
                send env (token_request o) = Responded r
                /\ status_code r ∈ DEFAULT_SUCCESS_RESPONSE_CODES
                /\ response_expiry r = Some d
                /\ response_token r = Some t
                /\ instances (heap R.2) !! ref = Some o'
                /\ own_access_token o' = Some t
                /\ own_access_token_expiry o' = Some d)).
Proof.
  intros Hreach. destruct (reachable_heap_ok _ Hreach) as [Hc _].
  split; [done|]. split.
  { intros i o _. unfold read_access_token, read_access_token_expiry.
    rewrite Hc. simpl. by destruct (own_access_token o),
      (own_access_token_expiry o). }
  split.
  - intros self c. rewrite call_eq.
    pose proof (_check_access_token_checked self env w) as Hch.
    destruct (_check_access_token self env w) as [res w1]. simpl in Hch.
    destruct (checked_frame _ _ _ _ _ Hch) as (Hc' & _ & Hi & _).
    destruct res as [[]|e]; simpl; rewrite ?dispatched_heap; done.
  - intros account subaccount api_key api_secret o self R. subst R.
    rewrite __init___eq. simpl. fold o self.
    destruct (__init___renews account subaccount api_key api_secret env w
                Hreach) as [Hs Hr].
    fold o self in Hs, Hr.
    set (w0 := with_instances w (instances (heap w) ++ [o])) in *.
    pose proof (lookup_lt_Some _ _ _ Hs) as Hlt.
    destruct (_check_access_token self env w0) as [res w1]. simpl in Hr.
    destruct (renewal_frame _ _ _ _ _ _ Hs Hr)
      as (Hc' & Hsent & _ & Hi & _).
    assert ((match res with
             | Return _ => (Return self, w1)
             | Raise e => (Raise e, w1)
             end).2 = w1) as Hsnd by (by destruct res).
    rewrite Hsnd. split; [done|]. split.
    { intros i oi Hio. pose proof (lookup_lt_Some _ _ _ Hio) as Hlti.
      rewrite Hi by (unfold self; lia). simpl. by apply lookup_app_l_Some. }
    split; [done|].
    destruct Hr as [what Hsend|r Hsend Hcode|r e Hsend Hcode Hexp
                    |r d Hsend Hcode Hexp Htok|r d t Hsend Hcode Hexp Htok];
      simpl.
    1-4: split;
      [ intros r' d' t' Hsend' Hcode' Hexp' Htok';
        rewrite Hsend in Hsend'; simplify_eq; first [done|congruence]
      | intros ref Href; done ].
    split.
    + intros r' d' t' Hsend' Hcode' Hexp' Htok'.
      rewrite Hsend in Hsend'. simplify_eq.
      split; [done|]. eexists.
      rewrite list_lookup_insert_eq by done. done.
    + intros ref [= <-]. exists r, d, t. eexists.
      rewrite list_lookup_insert_eq by done. done.
Qed.

(** ** Further properties of the methods *)

Lemma reachable_stale self o env w :
  reachable w ->
  instances (heap w) !! self = Some o ->
  read_access_token (heap w) o = VNone
  \/ (exists d, read_access_token_expiry (heap w) o = Some d /\ d < now env) ->
  token_has_expiry (heap w) o
  /\ stale (read_access_token (heap w) o)
       (read_access_token_expiry (heap w) o) (now env) = true.
Proof.
  intros Hreach Hs Hdue.
  destruct (reachable_heap_ok _ Hreach) as [_ Hinv]. specialize (Hinv _ _ Hs).
  split; [done|]. by apply (stale_true _ _ _ Hinv).
Qed.

Lemma renewal_done_inv self o env w res w' r d t :
  renewal self o env w res w' ->
  send env (token_request o) = Responded r ->
  status_code r ∈ DEFAULT_SUCCESS_RESPONSE_CODES ->
  response_expiry r = Some d ->
  response_token r = Some t ->
  res = Return tt
  /\ w' = with_instances (with_logged (fetching o w) (debug_record r))
            (<[self := store_access_token t (store_access_token_expiry d o)]>
               (instances (heap w))).
Proof.
  intros Hr Hsend Hcode Hexp Htok.
  destruct Hr as [what Hs'|r' Hs' Hc'|r' e Hs' Hc' He'|r' d' Hs' Hc' He' Ht'
                  |r' d' t' Hs' Hc' He' Ht'];
    rewrite Hsend in Hs'; simplify_eq; done.
Qed.

Lemma renewal_no_token_inv self o env w res w' r d :
  renewal self o env w res w' ->
  send env (token_request o) = Responded r ->
  status_code r ∈ DEFAULT_SUCCESS_RESPONSE_CODES ->
  response_expiry r = Some d ->
  response_token r = None ->
  res = Raise (KeyError "token")
  /\ w' = with_instances (with_logged (fetching o w) (debug_record r))
            (<[self := store_access_token_expiry d o]> (instances (heap w))).
Proof.
  intros Hr Hsend Hcode Hexp Htok.
  destruct Hr as [what Hs'|r' Hs' Hc'|r' e Hs' Hc' He'|r' d' Hs' Hc' He' Ht'
                  |r' d' t' Hs' Hc' He' Ht'];
    rewrite Hsend in Hs'; simplify_eq; done.
Qed.

Lemma renewal_refused_inv self o env w res w' r :
  renewal self o env w res w' ->
  send env (token_request o) = Responded r ->
  status_code r ∉ DEFAULT_SUCCESS_RESPONSE_CODES ->
  res = Raise (ApiError r) /\ w' = fetching o w.
Proof.
  intros Hr Hsend Hcode.
  destruct Hr as [what Hs'|r' Hs' Hc'|r' e Hs' Hc' He'|r' d' Hs' Hc' He' Ht'
                  |r' d' t' Hs' Hc' He' Ht'];
    rewrite Hsend in Hs'; simplify_eq; done.
Qed.

(** X1. Whatever the network answers, [_get_access_token] hands exactly one
    request to the session and leaves the heap alone: a POST to the base URL
    followed by [/api/v2/access/tokens], with the key id and the configured
    expiry time as JSON body, no query parameters, and the three headers
    [X-LW-UAKS] (the secret), [Content-Type] and [User-Agent], no other. *)
Theorem X1_token_request_shape self o env w :
  instances (heap w) !! self = Some o ->
  exists rq,
    sent (_get_access_token self env w).2 = sent w ++ [rq]
    /\ heap (_get_access_token self env w).2 = heap w
    /\ req_method rq = POST
    /\ req_uri rq = _base_url o +:+ "/api/v2/access/tokens"
    /\ req_params rq = VNone
    /\ req_json rq
       = VDict [("keyId", VStr (_api_key o));
                ("expiryTime", VInt DEFAULT_ACCESS_TOKEN_EXPIRATION)]
    /\ req_headers rq !! "X-LW-UAKS" = Some (VStr (_api_secret o))
    /\ req_headers rq !! "Content-Type" = Some (VStr "application/json")
    /\ req_headers rq !! "User-Agent"
       = Some (VStr ("laceworksdk-python-client/" +:+ version))
    /\ forall k, k <> "X-LW-UAKS" -> k <> "Content-Type" ->
         k <> "User-Agent" -> req_headers rq !! k = None.
Proof.
  intros Hs. exists (token_request o).
  rewrite (_get_access_token_eq _ o) by done.
  split; [by destruct (send env _); [case_bool_decide|]|].
  split; [by destruct (send env _); [case_bool_decide|]|].
  unfold token_request. simpl.
  repeat split; try intros k ? ? ?; by simplify_map_eq.
Qed.

(** X2. When the session raises on the resource request of a verb, the verb
    raises that same exception: it is not turned into [ApiError].  The token
    and the expiry stay as the token check left them. *)
Theorem X2_transport_failure_propagates c self env w w1 o what :
  _check_access_token self env w = (Return tt, w1) ->
  instances (heap w1) !! self = Some o ->
  send env (resource_request (read_access_token (heap w1) o) o c) = Failed what ->
  (call self c env w).1 = Raise (RequestException what)
  /\ sent (call self c env w).2
     = sent w1 ++ [resource_request (read_access_token (heap w1) o) o c]
  /\ heap (call self c env w).2 = heap w1.
Proof.
  intros Hch Hs Hsend. rewrite call_eq, Hch.
  split; [|split; [by apply dispatched_sent|by apply dispatched_heap]].
  unfold dispatched. by rewrite Hs, Hsend.
Qed.

(** X3. Once the token check has returned, each verb hands one request to
    the session, with its own HTTP method and the base URL followed by the
    given path; [get] and [delete] pass neither query parameters nor a JSON
    body, [patch], [post] and [put] pass [param] and [data] as given. *)
Theorem X3_verbs_request_line self env w w1 o uri org data param :
  _check_access_token self env w = (Return tt, w1) ->
  instances (heap w1) !! self = Some o ->
  (exists rq, sent (get self uri org env w).2 = sent w1 ++ [rq]
     /\ req_method rq = GET /\ req_uri rq = _base_url o +:+ uri
     /\ req_params rq = VNone /\ req_json rq = VNone)
  /\ (exists rq, sent (patch self uri org data param env w).2 = sent w1 ++ [rq]
     /\ req_method rq = PATCH /\ req_uri rq = _base_url o +:+ uri
     /\ req_params rq = param /\ req_json rq = data)
  /\ (exists rq, sent (post self uri org data param env w).2 = sent w1 ++ [rq]
     /\ req_method rq = POST /\ req_uri rq = _base_url o +:+ uri
     /\ req_params rq = param /\ req_json rq = data)
  /\ (exists rq, sent (put self uri org data param env w).2 = sent w1 ++ [rq]
     /\ req_method rq = PUT /\ req_uri rq = _base_url o +:+ uri
     /\ req_params rq = param /\ req_json rq = data)
  /\ (exists rq, sent (delete self uri org env w).2 = sent w1 ++ [rq]
     /\ req_method rq = DELETE /\ req_uri rq = _base_url o +:+ uri
     /\ req_params rq = VNone /\ req_json rq = VNone).
Proof.
  intros Hch Hs.
  change (get self uri org) with (call self (CallGet uri org)).
  change (patch self uri org data param)
    with (call self (CallPatch uri org data param)).
  change (post self uri org data param)
    with (call self (CallPost uri org data param)).
  change (put self uri org data param)
    with (call self (CallPut uri org data param)).
  change (delete self uri org) with (call self (CallDelete uri org)).
  rewrite !call_eq, Hch.
  repeat split; eexists; (split; [by apply dispatched_sent|done]).
Qed.

Lemma call_heap self c env w :
  heap (call self c env w).2 = heap (_check_access_token self env w).2.
Proof.
  rewrite call_eq. destruct (_check_access_token self env w) as [[[]|e] w1];
    simpl; by rewrite ?dispatched_heap.
Qed.

(** X4. A verb changes the heap only in its token check: dispatching the
    request, a response outside the allow-list and the debug logging leave
    the token and the expiry of every session as the check left them.  In
    particular a rejected response does not discard the cached token. *)
Theorem X4_dispatch_keeps_the_heap self c env w :
  heap (call self c env w).2 = heap (_check_access_token self env w).2.
Proof. apply call_heap. Qed.

Lemma token_missing_or_expired_stale self o env w :
  instances (heap w) !! self = Some o ->
  token_has_expiry (heap w) o ->
  stale (read_access_token (heap w) o) (read_access_token_expiry (heap w) o)
    (now env) = true ->
  token_missing_or_expired self env w = (Return true, w).
Proof.
  intros Hs Hinv Hst. rewrite (token_missing_or_expired_eq _ o) by done.
  unfold stale in Hst. destruct (is_None _) eqn:Hn; [done|].
  destruct (Hinv Hn) as [d Hexp]. rewrite Hexp in Hst |- *.
  simpl in Hst. by rewrite Hst.
Qed.

Lemma _check_access_token_unreadable self o env w r :
  instances (heap w) !! self = Some o ->
  token_has_expiry (heap w) o ->
  stale (read_access_token (heap w) o) (read_access_token_expiry (heap w) o)
    (now env) = true ->
  send env (token_request o) = Responded r ->
  status_code r ∈ DEFAULT_SUCCESS_RESPONSE_CODES ->
  response_expiry r = None ->
  _check_access_token self env w
  = (match json r with
     | None => Raise ValueError
     | Some (VDict items) =>
         match dict_get "expiresAt" items with
         | None => Raise (KeyError "expiresAt")
         | Some (VStr _) => Raise ValueError
         | Some _ => Raise TypeError
         end
     | Some _ => Raise TypeError
     end, with_logged (fetching o w) (debug_record r)).
Proof.
  intros Hs Hinv Hst Hsend Hcode Hexp. unfold _check_access_token, bind at 1.
  rewrite (token_missing_or_expired_stale _ o) by done.
  unfold bind at 1. rewrite (_get_access_token_eq _ o), Hsend by done.
  rewrite bool_decide_eq_true_2 by done.
  unfold response_expiry in Hexp.
  unfold bind at 1, response_json at 1.
  destruct (json r) as [body|]; [|done].
  unfold bind at 1, ret at 1, subscript at 1.
  destruct body as [| | | | |items]; try done.
  destruct (dict_get "expiresAt" items) as [ea|]; [|done].
  unfold bind at 1, ret at 1, datetime_strptime at 1.
  destruct ea as [| | |sea| |]; try done.
  by rewrite Hexp.
Qed.

(** X5. A token response with a success status whose [expiresAt] cannot be
    read does not end in [ApiError]: the token check raises [ValueError] when
    the body is not JSON or the timestamp does not match the format,
    [KeyError] when the key is missing, [TypeError] when the body is not an
    object or the value not a string.  The token request has been sent and
    the token and expiry are as before. *)
Theorem X5_unreadable_token_response self env w o r :
  reachable w ->
  instances (heap w) !! self = Some o ->
  read_access_token (heap w) o = VNone
  \/ (exists d, read_access_token_expiry (heap w) o = Some d /\ d < now env) ->
  send env (token_request o) = Responded r ->
  status_code r ∈ DEFAULT_SUCCESS_RESPONSE_CODES ->
  response_expiry r = None ->
  heap (_check_access_token self env w).2 = heap w
  /\ sent (_check_access_token self env w).2 = sent w ++ [token_request o]
  /\ (_check_access_token self env w).1
     = match json r with
       | None => Raise ValueError
       | Some (VDict items) =>
           match dict_get "expiresAt" items with
           | None => Raise (KeyError "expiresAt")
           | Some (VStr _) => Raise ValueError
           | Some _ => Raise TypeError
           end
       | Some _ => Raise TypeError
       end.
Proof.
  intros Hreach Hs Hdue Hsend Hcode Hexp.
  destruct (reachable_stale _ _ env _ Hreach Hs Hdue) as [Hinv Hst].
  by rewrite (_check_access_token_unreadable _ o _ _ r).
Qed.

Lemma lower_app a b : lower (a +:+ b) = lower a +:+ lower b.
Proof. induction a as [|x a IH]; [done|]. simpl. by rewrite IH. Qed.

Lemma prefix_app n b : String.prefix n (n +:+ b) = true.
Proof.
  induction n as [|x n IH]; simpl; [by destruct b|].
  by destruct (ascii_dec x x).
Qed.

Lemma contains_app n a b : contains n (a +:+ n +:+ b) = true.
Proof.
  assert (forall h, contains n h
                    = String.prefix n h
                      || match h with
                         | EmptyString => false
                         | String _ rest => contains n rest
                         end) as Hunfold by (by intros []).
  induction a as [|x a IH].
  - change ("" +:+ n +:+ b) with (n +:+ b). by rewrite Hunfold, prefix_app.
  - change (String x a +:+ n +:+ b) with (String x (a +:+ n +:+ b)).
    rewrite Hunfold, IH. by rewrite orb_true_r.
Qed.

(** X6. The debug logging recognises a JSON response by the substring
    [application/json] of the Content-Type header taken in lower case:
    whatever the case of the letters and whatever precedes or follows the
    media type, the parsed body is logged at debug level, or the warning
    when the body does not parse. *)
Theorem X6_content_type_in_any_case self r pre ct post env w :
  headers r !! "content-type" = Some (pre +:+ ct +:+ post) ->
  lower ct = "application/json" ->
  _print_debug_logging self r env w
  = (Return tt,
     with_logged w
       match json r with
       | Some v => Debug (Dumps v)
       | None => Warning (Str "Error parsing JSON response body")
       end).
Proof.
  intros Hh Hct. rewrite _print_debug_logging_eq. unfold debug_record.
  unfold headers_get. change (lower "Content-Type") with "content-type".
  rewrite Hh. simpl. rewrite !lower_app, Hct. by rewrite contains_app.
Qed.

(** X7. A response without a Content-Type header is logged as raw text at
    debug level, even when its body would parse as JSON. *)
Theorem X7_no_content_type_logs_text self r env w :
  headers r !! "content-type" = None ->
  _print_debug_logging self r env w
  = (Return tt, with_logged w (Debug (Str (text r)))).
Proof.
  intros Hh. rewrite _print_debug_logging_eq. unfold debug_record.
  unfold headers_get. change (lower "Content-Type") with "content-type".
  by rewrite Hh.
Qed.

(** X8. When the token endpoint answers the constructor with a success
    status, a readable [expiresAt] and a [token], the constructor returns
    the reference of a new session that holds the key, the secret and the
    sub-account as given, the token and the parsed expiry. *)
Theorem X8_constructor_success account subaccount api_key api_secret env w
    r d t :
  reachable w ->
  let o :=
    {| _api_key := api_key; _api_secret := api_secret;
       _base_url := "https://" +:+ account +:+ "." +:+ DEFAULT_BASE_DOMAIN;
       _subaccount := subaccount;
       own_access_token := None; own_access_token_expiry := None |} in
  let self := length (instances (heap w)) in
  let R := __init__ account subaccount api_key api_secret env w in
  send env (token_request o) = Responded r ->
  status_code r ∈ DEFAULT_SUCCESS_RESPONSE_CODES ->
  response_expiry r = Some d ->
  response_token r = Some t ->
  R.1 = Return self
  /\ instances (heap R.2) !! self
     = Some {| _api_key := api_key; _api_secret := api_secret;
               _base_url :=
                 "https://" +:+ account +:+ "." +:+ DEFAULT_BASE_DOMAIN;
               _subaccount := subaccount;
               own_access_token := Some t;
               own_access_token_expiry := Some d |}
  /\ length (instances (heap R.2)) = S (length (instances (heap w))).
Proof.
  intros Hreach o self R Hsend Hcode Hexp Htok. subst R.
  rewrite __init___eq. simpl. fold o self.
  set (w0 := with_instances w (instances (heap w) ++ [o])).
  destruct (reachable_heap_ok _ Hreach) as [Hc _].
  assert (instances (heap w0) !! self = Some o) as Hs
    by apply list_lookup_middle, eq_refl.
  assert (read_access_token (heap w0) o = VNone) as Htok0
    by (unfold read_access_token; simpl; by rewrite Hc).
  assert (token_has_expiry (heap w0) o) as Hinv
    by (intros Hn; rewrite Htok0 in Hn; done).
  assert (stale (read_access_token (heap w0) o)
            (read_access_token_expiry (heap w0) o) (now env) = true) as Hst
    by (unfold stale; by rewrite Htok0).
  pose proof (_check_access_token_stale _ _ env _ Hs Hinv Hst) as Hr.
  destruct (_check_access_token self env w0) as [res w1]. simpl in Hr.
  destruct (renewal_done_inv _ _ _ _ _ _ _ _ _ Hr Hsend Hcode Hexp Htok)
    as [-> ->].
  simpl. split; [done|].
  rewrite length_insert, length_app. simpl.
  split; [|lia]. apply list_lookup_insert_eq.
  rewrite length_app. simpl. unfold self. lia.
Qed.

(** X9. No verb call assigns the attributes [__init__] set: after any call
    on any reference, every session is still in the heap and has the key,
    the secret, the base URL and the sub-account it had. *)
Theorem X9_identity_attributes_never_change self c env w i o :
  instances (heap w) !! i = Some o ->
  exists o',
    instances (heap (call self c env w).2) !! i = Some o'
    /\ _api_key o' = _api_key o /\ _api_secret o' = _api_secret o
    /\ _base_url o' = _base_url o /\ _subaccount o' = _subaccount o.
Proof.
  intros Hi. rewrite call_heap.
  pose proof (_check_access_token_checked self env w) as Hch.
  destruct (_check_access_token self env w) as [res w1]. simpl in *.
  destruct (checked_frame _ _ _ _ _ Hch) as (_ & _ & Hother & Hself).
  destruct (decide (i = self)) as [->|Hne].
  - destruct (Hself _ Hi) as (o' & Ho' & Hid). exists o'. by split.
  - exists o. rewrite Hother by done. by repeat split.
Qed.



(** X11. A verb called when the token is missing or expired, whose renewal
    succeeds, dispatches its resource request in the same call and with the
    new token: it sends the token request, then one request whose
    [Authorization] header is the token just fetched, and the session holds
    that token and the parsed expiry. *)
Theorem X11_renewing_call_uses_new_token c self env w o r d t :
  reachable w ->
  instances (heap w) !! self = Some o ->
  read_access_token (heap w) o = VNone
  \/ (exists d0, read_access_token_expiry (heap w) o = Some d0 /\ d0 < now env) ->
  send env (token_request o) = Responded r ->
  status_code r ∈ DEFAULT_SUCCESS_RESPONSE_CODES ->
  response_expiry r = Some d ->
  response_token r = Some t ->
  exists rq0 rq o',
    sent (call self c env w).2 = sent w ++ [rq0; rq]
    /\ req_headers rq0 !! "X-LW-UAKS" = Some (VStr (_api_secret o))
    /\ req_headers rq !! "Authorization" = Some t
    /\ instances (heap (call self c env w).2) !! self = Some o'
    /\ own_access_token o' = Some t
    /\ own_access_token_expiry o' = Some d.
Proof.
  intros Hreach Hs Hdue Hsend Hcode Hexp Htok.
  pose proof (lookup_lt_Some _ _ _ Hs) as Hlt.
  destruct (reachable_stale _ _ env _ Hreach Hs Hdue) as [Hinv Hst].
  pose proof (_check_access_token_stale _ _ env _ Hs Hinv Hst) as Hr.
  rewrite call_heap, call_eq.
  destruct (_check_access_token self env w) as [res w1]. simpl in Hr.
  destruct (renewal_done_inv _ _ _ _ _ _ _ _ _ Hr Hsend Hcode Hexp Htok)
    as [-> ->].
  set (o1 := store_access_token t (store_access_token_expiry d o)).
  set (w1 := with_instances _ _).
  assert (instances (heap w1) !! self = Some o1) as Hs1
    by (simpl; by apply list_lookup_insert_eq).
  exists (token_request o), (resource_request t o1 c), o1.
  split.
  { rewrite (dispatched_sent _ o1) by done. simpl. by rewrite <- app_assoc. }
  split; [unfold token_request; simpl; by simplify_map_eq|].
  split; [|done].
  unfold resource_request. simpl. destruct (truthy _); by simplify_map_eq.
Qed.

(** X12. A verb called when the token is missing or expired, whose token
    request is answered with a status outside the allow-list, raises
    [ApiError] with that answer; the resource request is never sent and the
    token and expiry are as before. *)
Theorem X12_refused_fetch_aborts_verb c self env w o r :
  reachable w ->
  instances (heap w) !! self = Some o ->
  read_access_token (heap w) o = VNone
  \/ (exists d0, read_access_token_expiry (heap w) o = Some d0 /\ d0 < now env) ->
  send env (token_request o) = Responded r ->
  status_code r ∉ DEFAULT_SUCCESS_RESPONSE_CODES ->
  (call self c env w).1 = Raise (ApiError r)
  /\ sent (call self c env w).2 = sent w ++ [token_request o]
  /\ heap (call self c env w).2 = heap w.
Proof.
  intros Hreach Hs Hdue Hsend Hcode.
  destruct (reachable_stale _ _ env _ Hreach Hs Hdue) as [Hinv Hst].
  pose proof (_check_access_token_stale _ _ env _ Hs Hinv Hst) as Hr.
  rewrite call_eq.
  destruct (_check_access_token self env w) as [res w1]. simpl in Hr.
  by destruct (renewal_refused_inv _ _ _ _ _ _ _ Hr Hsend Hcode) as [-> ->].
Qed.

(** X13. After a renewal that stored the expiry and then failed on a
    missing [token], the session keeps its previous token, and until the new
    expiry has passed the token check returns without fetching: the
    previous token stays in use. *)
Theorem X13_previous_token_kept_until_new_expiry self env env' w o r d0 d :
  reachable w ->
  instances (heap w) !! self = Some o ->
  read_access_token (heap w) o <> VNone ->
  read_access_token_expiry (heap w) o = Some d0 ->
  d0 < now env ->
  send env (token_request o) = Responded r ->
  status_code r ∈ DEFAULT_SUCCESS_RESPONSE_CODES ->
  response_expiry r = Some d ->
  response_token r = None ->
  now env' <= d ->
  exists o1,
    instances (heap (_check_access_token self env w).2) !! self = Some o1
    /\ read_access_token (heap (_check_access_token self env w).2) o1
       = read_access_token (heap w) o
    /\ _check_access_token self env' (_check_access_token self env w).2
       = (Return tt, (_check_access_token self env w).2).
Proof.
  intros Hreach Hs Hn Hd0 Hlt0 Hsend Hcode Hexp Htok Hlt.
  pose proof (lookup_lt_Some _ _ _ Hs) as Hlen.
  assert (read_access_token (heap w) o = VNone
          \/ (exists d0, read_access_token_expiry (heap w) o = Some d0
                         /\ d0 < now env)) as Hdue by (right; eauto).
  destruct (reachable_stale _ _ env _ Hreach Hs Hdue) as [Hinv Hst].
  pose proof (_check_access_token_stale _ _ env _ Hs Hinv Hst) as Hr.
  destruct (_check_access_token self env w) as [res w1]. simpl in Hr.
  destruct (renewal_no_token_inv _ _ _ _ _ _ _ _ Hr Hsend Hcode Hexp Htok)
    as [-> ->]. simpl.
  set (o1 := store_access_token_expiry d o).
  set (w1 := with_instances _ _).
  assert (instances (heap w1) !! self = Some o1) as Hs1
    by (simpl; by apply list_lookup_insert_eq).
  exists o1. split; [done|]. split; [done|].
  apply (_check_access_token_fresh _ o1); [done| |].
  - intros _. unfold read_access_token_expiry. simpl. eauto.
  - assert (read_access_token (heap w1) o1 = read_access_token (heap w) o)
      as -> by done.
    assert (read_access_token_expiry (heap w1) o1 = Some d) as -> by done.
    unfold stale. apply is_None_false in Hn. rewrite Hn. simpl.
    by apply Z.ltb_ge.
Qed.

End Properties.

(** * Worked examples *)

#[local] Existing Instance lacework.

Lemma world_logged_in_reachable : reachable world_logged_in.
Proof. apply rtc_once. apply step_init. Qed.

Lemma world_logged_in_session :
  instances (heap world_logged_in) !! 0%nat = Some session_abc.
Proof. by vm_compute. Qed.

Lemma world_two_sessions_session :
  instances (heap world_two_sessions) !! 1%nat = Some session_xyz.
Proof. by vm_compute. Qed.

(** C1 at work: a GET answered with 200 returns the response. *)
Lemma C1_witness :
  (call 0 get_events env_events world_logged_in).1 = Return (json_body 200 events).
Proof.
  refine (proj1 (proj2 (C1_status_decides_outcome get_events 0 env_events
            world_logged_in world_logged_in session_abc (json_body 200 events)
            _ _ _)) _).
  - by vm_compute.
  - by vm_compute.
  - by vm_compute.
  - simpl. set_solver.
Defined.

(** C2, where the code departs from it. With the network down, the POST of
    the token fetch raises before the local [response] is bound; the handler
    then fails on reading it, and [UnboundLocalError], not [ApiError], leaves
    [_get_access_token], the verb that needed the token, and the
    constructor.  The fetch is not tried again: the verb has added one token
    request to the one of the construction. *)
Theorem C2_no_response_raises_UnboundLocalError :
  (_get_access_token 0 env_unreachable world_logged_in).1
  = Raise (UnboundLocalError "response")
  /\ (call 0 get_events env_unreachable world_logged_in).1
     = Raise (UnboundLocalError "response")
  /\ token_fetches (sent (call 0 get_events env_unreachable world_logged_in).2)
     = 2%nat
  /\ length (sent (call 0 get_events env_unreachable world_logged_in).2) = 2%nat
  /\ (__init__ "acme" None "KEY" "SECRET" env_unreachable initial_world).1
     = Raise (UnboundLocalError "response").
Proof. repeat split; by vm_compute. Qed.

(** C3 fails at the boundary: a token is cached, now equals the cached
    expiry, and the token check sends nothing. *)
Lemma C3_counterexample_no_fetch_at_expiry :
  observed world_logged_in 0 = Some (VStr "abc", Some (t_2030 + hour))
  /\ now env_at_expiry = t_2030 + hour
  /\ (_check_access_token 0 env_at_expiry world_logged_in).1 = Return tt
  /\ sent (_check_access_token 0 env_at_expiry world_logged_in).2
     = sent world_logged_in.
Proof. repeat split; by vm_compute. Qed.

(** The amended C3 at the boundary instant. *)
Lemma C3_witness :
  (sent (_check_access_token 0 env_at_expiry world_logged_in).2
   = sent world_logged_in ++ [token_request session_abc]
   /\ (read_access_token (heap world_logged_in) session_abc = VNone
       \/ exists d,
           read_access_token_expiry (heap world_logged_in) session_abc = Some d
           /\ d < now env_at_expiry))
  \/ (sent (_check_access_token 0 env_at_expiry world_logged_in).2
      = sent world_logged_in
      /\ read_access_token (heap world_logged_in) session_abc <> VNone
      /\ exists d,
           read_access_token_expiry (heap world_logged_in) session_abc = Some d
           /\ now env_at_expiry <= d).
Proof.
  exact (C3_fetch_iff_missing_or_past_expiry 0 env_at_expiry world_logged_in
           session_abc world_logged_in_reachable world_logged_in_session).
Defined.

(** C4 fails when the token response carries [expiresAt] and no [token]:
    the check raises [KeyError], the expiry has moved to 04:00 and the token
    is still the one fetched at construction. *)
Lemma C4_counterexample_expiry_updated_token_stale :
  observed world_logged_in 0 = Some (VStr "abc", Some (t_2030 + hour))
  /\ (_check_access_token 0 env_no_token world_logged_in).1
     = Raise (KeyError "token")
  /\ observed (_check_access_token 0 env_no_token world_logged_in).2 0
     = Some (VStr "abc", Some (t_2030 + 4 * hour)).
Proof. repeat split; by vm_compute. Qed.

(** The amended C4 on the same renewal. *)
Lemma C4_witness :
  exists o',
    instances (heap (_check_access_token 0 env_no_token world_logged_in).2)
      !! 0%nat = Some o'
    /\ (_check_access_token 0 env_no_token world_logged_in).1
       = Raise (KeyError "token")
    /\ own_access_token o' = own_access_token session_abc
    /\ own_access_token_expiry o' = Some (t_2030 + 4 * hour).
Proof.
  destruct (C4_expiry_stored_before_token 0 env_no_token world_logged_in
              session_abc world_logged_in_reachable world_logged_in_session)
    as (o' & Ho' & _ & Hdue).
  destruct Hdue as (_ & _ & _ & Hno_token & _).
  { right. exists (t_2030 + hour). by vm_compute. }
  exists o'. split; [exact Ho'|].
  apply (Hno_token expiry_only (t_2030 + 4 * hour)).
  - by vm_compute.
  - simpl. by constructor.
  - by vm_compute.
  - by vm_compute.
Defined.

(** C5 at work: two GETs within the hour send two requests, neither of them
    a token fetch. *)
Lemma C5_witness :
  exists l,
    sent (run_calls 0 [(env_events, get_events); (env_at_expiry, get_events)]
            world_logged_in).2 = sent world_logged_in ++ l
    /\ token_fetches l = 0%nat /\ length l = 2%nat.
Proof.
  refine (proj2 (C5_one_fetch_only_when_stale 0 world_logged_in session_abc
            world_logged_in_reachable world_logged_in_session)
            [(env_events, get_events); (env_at_expiry, get_events)] _ _).
  - by vm_compute.
  - intros env c d Hin Hexp. vm_compute in Hexp. injection Hexp as <-.
    repeat (apply elem_of_cons in Hin as [[= -> ->]|Hin]; [by vm_compute|]).
    by apply elem_of_nil in Hin.
Defined.

(** C6 at work: a GET on the session of sub-account [dev]. *)
Lemma C6_witness :
  exists rq,
    sent (call 1 get_events env_events world_two_sessions).2
    = sent world_two_sessions ++ [rq]
    /\ req_headers rq !! "Authorization"
       = Some (read_access_token (heap world_two_sessions) session_xyz)
    /\ req_headers rq !! "Org-Access"
       = Some (VStr (if org_of get_events then "true" else "false"))
    /\ req_headers rq !! "User-Agent"
       = Some (VStr ("laceworksdk-python-client/" +:+ version))
    /\ req_headers rq !! "Account-Name"
       = match _subaccount session_xyz with
         | Some (String a s) => Some (VStr (String a s))
         | _ => None
         end
    /\ forall k, k <> "Authorization" -> k <> "Org-Access" ->
         k <> "User-Agent" -> k <> "Account-Name" ->
         req_headers rq !! k = None.
Proof.
  refine (C6_request_headers get_events 1 env_events world_two_sessions
            world_two_sessions session_xyz _ world_two_sessions_session).
  by vm_compute.
Defined.

(** C7 at work: the first construction, on the initial world. *)
Lemma C7_witness :
  sent world_logged_in = [token_request
    {| _api_key := "KEY"; _api_secret := "SECRET";
       _base_url := "https://acme.lacework.net"; _subaccount := None;
       own_access_token := None; own_access_token_expiry := None |}].
Proof.
  exact (proj1 (C7_constructor_fetches_eagerly "acme" None "KEY" "SECRET"
                  env_login initial_world (rtc_refl _ _))).
Defined.

(** C8 at work: a page of HTML served as JSON is logged as a warning. *)
Lemma C8_witness :
  _print_debug_logging 0 html_as_json env_html world_logged_in
  = (Return tt,
     with_logged world_logged_in
       (Warning (Str "Error parsing JSON response body"))).
Proof.
  refine (proj1 (C8_unparsable_json_is_only_logged get_events 0 env_html
            env_parsed world_logged_in world_logged_in session_abc html_as_json
            events _ _ _ _ _ _ _)); by vm_compute.
Defined.

(** C9 fails: the first session holds the token [abc], good until 01:00;
    a second session constructed one second later does not read it, sends a
    token fetch of its own and holds [xyz]; the first still holds [abc], and
    the class attributes are [None] as before. *)
Lemma C9_counterexample_second_session_fetches_its_own_token :
  observed world_logged_in 0 = Some (VStr "abc", Some (t_2030 + hour))
  /\ now env_second_login < t_2030 + hour
  /\ token_fetches (sent world_logged_in) = 1%nat
  /\ token_fetches (sent world_two_sessions) = 2%nat
  /\ observed world_two_sessions 1 = Some (VStr "xyz", Some (t_2030 + 2 * hour))
  /\ observed world_two_sessions 0 = Some (VStr "abc", Some (t_2030 + hour))
  /\ class_obj (heap world_two_sessions) = HttpSession.
Proof. repeat split; by vm_compute. Qed.

(** The amended C9 at work: the second construction sends a token request
    of its own, although the first session holds a token that is still
    good. *)
Lemma C9_witness :
  sent world_two_sessions
  = sent world_logged_in
    ++ [token_request
          {| _api_key := "KEY2"; _api_secret := "SECRET2";
             _base_url := "https://acme.lacework.net";
             _subaccount := Some "dev";
             own_access_token := None; own_access_token_expiry := None |}].
Proof.
  destruct (C9_token_state_is_per_instance env_second_login world_logged_in
              world_logged_in_reachable) as (_ & _ & _ & Hinit).
  destruct (Hinit "acme" (Some "dev") "KEY2" "SECRET2") as (_ & _ & Hsent & _).
  exact Hsent.
Defined.

(** C10 at work on the session constructed first. *)
Lemma C10_witness :
  (read_access_token (heap world_logged_in) session_abc <> VNone ->
   exists d,
     read_access_token_expiry (heap world_logged_in) session_abc = Some d)
  /\ exists b,
       token_missing_or_expired 0 env_at_expiry world_logged_in
       = (Return b, world_logged_in).
Proof.
  exact (C10_expiry_check_is_total world_logged_in 0 session_abc env_at_expiry
           world_logged_in_reachable world_logged_in_session).
Defined.

(** ** Worked examples of the further properties *)

Lemma session_abc_expired :
  read_access_token (heap world_logged_in) session_abc = VNone
  \/ (exists d0,
        read_access_token_expiry (heap world_logged_in) session_abc = Some d0
        /\ d0 < t_2030 + 2 * hour).
Proof. right. exists (t_2030 + hour). by vm_compute. Qed.

(** X1 at work: a fetch that gets no answer has still sent its request and
    left the heap alone. *)
Lemma X1_witness :
  heap (_get_access_token 0 env_unreachable world_logged_in).2
  = heap world_logged_in.
Proof.
  destruct (X1_token_request_shape 0 session_abc env_unreachable
              world_logged_in world_logged_in_session)
    as (rq & _ & Hheap & _).
  exact Hheap.
Defined.

(** X2 at work: the resource endpoint cannot be reached. *)
Lemma X2_witness :
  (call 0 get_events env_resource_down world_logged_in).1
  = Raise (RequestException "ConnectionError").
Proof.
  refine (proj1 (X2_transport_failure_propagates get_events 0
            env_resource_down world_logged_in world_logged_in session_abc
            "ConnectionError" _ _ _)); by vm_compute.
Defined.

(** X3 at work: the request line of a GET. *)
Lemma X3_witness :
  exists rq,
    sent (get 0 "/api/v2/events" false env_events world_logged_in).2
    = sent world_logged_in ++ [rq]
    /\ req_method rq = GET
    /\ req_uri rq = "https://acme.lacework.net/api/v2/events"
    /\ req_params rq = VNone /\ req_json rq = VNone.
Proof.
  refine (proj1 (X3_verbs_request_line 0 env_events world_logged_in
            world_logged_in session_abc "/api/v2/events" false VNone VNone
            _ _)); by vm_compute.
Defined.

(** X5 at work: the token endpoint answers 200 with a page of HTML. *)
Lemma X5_witness :
  (_check_access_token 0 env_html_token world_logged_in).1 = Raise ValueError.
Proof.
  refine (proj2 (proj2 (X5_unreadable_token_response 0 env_html_token
            world_logged_in session_abc html_as_json
            world_logged_in_reachable world_logged_in_session
            session_abc_expired _ _ _))).
  - by vm_compute.
  - simpl. set_solver.
  - by vm_compute.
Defined.

(** X6 at work: [Application/JSON; charset=UTF-8]. *)
Lemma X6_witness :
  _print_debug_logging 0 mixed_case_json env_events world_logged_in
  = (Return tt, with_logged world_logged_in (Debug (Dumps events))).
Proof.
  refine (X6_content_type_in_any_case 0 mixed_case_json "" "Application/JSON"
            "; charset=UTF-8" env_events world_logged_in _ _); by vm_compute.
Defined.

(** X7 at work: a body with no Content-Type. *)
Lemma X7_witness :
  _print_debug_logging 0 untyped_body env_events world_logged_in
  = (Return tt, with_logged world_logged_in (Debug (Str "pong"))).
Proof.
  refine (X7_no_content_type_logs_text 0 untyped_body env_events
            world_logged_in _); by vm_compute.
Defined.

(** X8 at work: the first construction. *)
Lemma X8_witness :
  (__init__ "acme" None "KEY" "SECRET" env_login initial_world).1
  = Return 0%nat.
Proof.
  refine (proj1 (X8_constructor_success "acme" None "KEY" "SECRET" env_login
            initial_world
            (json_body 201 (token_body "abc" "2030-01-01T01:00:00.000000+0000"))
            (t_2030 + hour) (VStr "abc") (rtc_refl _ _) _ _ _ _)).
  - by vm_compute.
  - simpl. set_solver.
  - by vm_compute.
  - by vm_compute.
Defined.

(** X9 at work: the first session keeps its key through a renewing call on
    the second. *)
Lemma X9_witness :
  exists o',
    instances (heap (call 1 get_events env_renew world_two_sessions).2) !! 0%nat
    = Some o'
    /\ _api_key o' = "KEY".
Proof.
  destruct (X9_identity_attributes_never_change 1 get_events env_renew
              world_two_sessions 0 session_abc) as (o' & Ho' & Hkey & _).
  - by vm_compute.
  - exists o'. split; [exact Ho'|exact Hkey].
Defined.


(** X11 at work: two hours after construction the token [def] is fetched
    and used at once. *)
Lemma X11_witness :
  exists rq0 rq,
    sent (call 0 get_events env_renew world_logged_in).2
    = sent world_logged_in ++ [rq0; rq]
    /\ req_headers rq !! "Authorization" = Some (VStr "def").
Proof.
  destruct (X11_renewing_call_uses_new_token get_events 0 env_renew
              world_logged_in session_abc token_def (t_2030 + 3 * hour)
              (VStr "def") world_logged_in_reachable world_logged_in_session
              session_abc_expired)
    as (rq0 & rq & o' & Hsent & _ & Hauth & _).
  - by vm_compute.
  - simpl. set_solver.
  - by vm_compute.
  - by vm_compute.
  - exists rq0, rq. split; [exact Hsent|exact Hauth].
Defined.

(** X12 at work: the token endpoint answers 401. *)
Lemma X12_witness :
  (call 0 get_events env_refused world_logged_in).1
  = Raise (ApiError unauthorized).
Proof.
  refine (proj1 (X12_refused_fetch_aborts_verb get_events 0 env_refused
            world_logged_in session_abc unauthorized
            world_logged_in_reachable world_logged_in_session
            session_abc_expired _ _)).
  - by vm_compute.
  - simpl. intros Hin.
    repeat (apply elem_of_cons in Hin as [Hin|Hin]; [done|]).
    by apply elem_of_nil in Hin.
Defined.

(** X13 at work: after the renewal that stored 04:00 and no token, a check
    at 02:00 fetches nothing. *)
Lemma X13_witness :
  _check_access_token 0 env_renew
    (_check_access_token 0 env_no_token world_logged_in).2
  = (Return tt, (_check_access_token 0 env_no_token world_logged_in).2).
Proof.
  destruct (X13_previous_token_kept_until_new_expiry 0 env_no_token env_renew
              world_logged_in session_abc expiry_only (t_2030 + hour)
              (t_2030 + 4 * hour) world_logged_in_reachable
              world_logged_in_session)
    as (o1 & _ & _ & Hcheck).
  - by vm_compute.
  - by vm_compute.
  - by vm_compute.
  - by vm_compute.
  - simpl. set_solver.
  - by vm_compute.
  - by vm_compute.
  - by vm_compute.
  - exact Hcheck.
Defined.
